(** * What-if analysis of query plans: a shallow embedding of [whatif.py]

    The development follows the Python source function by function.

    - Plan nodes are Python dictionaries: mutable objects that live in a
      store and are reached through references.  [modify_qep] copies only
      the outermost dictionary, so the store and the aliasing are modelled
      explicitly: a [heap] maps locations to dictionaries.
    - Python integers are unbounded: [Z].  Python floats are IEEE binary64
      numbers: [spec_float] with precision 53 and maximal exponent 1024.
    - A Python exception is a [Raise] outcome.
    - What the functions print is not modelled. *)

From Stdlib Require Import ZArith QArith Qabs List Bool Lia SpecFloat Ascii String.
From stdpp Require Import base option list strings gmap fin_maps.

Set Warnings "-register-all".
Local Open Scope Z_scope.

(** ** Values, dictionaries and the store *)

Definition loc := positive.

(** What [json.loads] produces, with dictionaries behind references.
    Lists are never mutated by the code under study and are kept inline. *)
Inductive val :=
| VNone
| VBool (b : bool)
| VInt (z : Z)
| VFloat (f : spec_float)
| VStr (s : string)
| VList (vs : list val)
| VRef (l : loc).

(** A dictionary with string keys, and the store of all dictionaries. *)
Abbreviation pydict := (gmap string val).
Abbreviation heap := (gmap loc pydict).

(** ** Outcomes *)

Inductive exn :=
| KeyError
| TypeError
| AttributeError
| OverflowError
| InvalidOperation      (* decimal.InvalidOperation *)
| FloatValueError       (* the ValueError of [float] on a string that is no number *)
| ValueError (msg : string)
| RuntimeError (msg : string).

(** The class of an exception, as an [except] clause would test it. *)
Inductive exn_class :=
| CKeyError | CTypeError | CAttributeError | COverflowError
| CInvalidOperation | CValueError | CRuntimeError.

Definition class_of (e : exn) : exn_class :=
  match e with
  | KeyError => CKeyError
  | TypeError => CTypeError
  | AttributeError => CAttributeError
  | OverflowError => COverflowError
  | InvalidOperation => CInvalidOperation
  | FloatValueError => CValueError
  | ValueError _ => CValueError
  | RuntimeError _ => CRuntimeError
  end.

(** Lines 44-45 and 129-130: when the engine refuses a query
    ([psycopg2.Error]), [retrieve_qep] and [retrieve_aqp] raise a
    [RuntimeError] that quotes the message of the engine. *)
Definition engine_refusal (msg : string) : exn := RuntimeError msg.

(** [Ret]: normal completion.  [Raise]: a Python exception.  [OutOfFuel]: the
    recursion budget of the model ran out.  [Stuck]: a reference to a
    location the store does not hold, which no Python program can build. *)
Inductive outcome (A : Type) :=
| Ret (a : A)
| Raise (e : exn)
| OutOfFuel
| Stuck.
Arguments Ret {A} a.
Arguments Raise {A} e.
Arguments OutOfFuel {A}.
Arguments Stuck {A}.

#[global] Instance outcome_bind : MBind outcome := λ A B k m,
  match m with
  | Ret a => k a
  | Raise e => Raise e
  | OutOfFuel => OutOfFuel
  | Stuck => Stuck
  end.

(** ** Python primitives used by the source *)

(** [d.get(key, dflt)] *)
Definition dict_get (d : pydict) (key : string) (dflt : val) : val :=
  default dflt (d !! key).

(** Iterating a string yields its characters, as one-character strings. *)
Fixpoint chars (s : string) : list val :=
  match s with
  | EmptyString => []
  | String c s' => VStr (String c EmptyString) :: chars s'
  end.

(** The items a [for] loop draws from a value.  Iterating a dictionary
    yields its keys; their order plays no role below, since every key is a
    string, on which the loop bodies of this file raise at once. *)
Definition py_iter (h : heap) (v : val) : outcome (list val) :=
  match v with
  | VList vs => Ret vs
  | VStr s => Ret (chars s)
  | VRef l =>
      match h !! l with
      | Some d => Ret (VStr <$> (map_to_list d).*1)
      | None => Stuck
      end
  | VNone | VBool _ | VInt _ | VFloat _ => Raise TypeError
  end.

(** [for i, child in enumerate(items): body(i, child)], the store threaded
    through the iterations. *)
Fixpoint for_enumerate (body : Z → val → heap → outcome heap)
    (i : Z) (items : list val) (h : heap) : outcome heap :=
  match items with
  | [] => Ret h
  | child :: rest =>
      h' ← body i child h ; for_enumerate body (i + 1) rest h'
  end.

(** [for child in items: body(child)] *)
Definition for_each (body : val → heap → outcome heap) : list val → heap → outcome heap :=
  for_enumerate (λ _, body) 0.

(** ** [assign_node_ids] (whatif.py, lines 36-40 and 120-124) *)

Fixpoint assign_node_ids (fuel : nat) (node : val) (current_id : Z) (h : heap)
    : outcome heap :=
  match fuel with
  | O => OutOfFuel
  | S fuel' =>
      match node with
      | VRef l =>
          match h !! l with
          | None => Stuck
          | Some d =>
              (* node["Node ID"] = current_id *)
              let d' := <["Node ID" := VInt current_id]> d in
              let h1 := <[l := d']> h in
              let child_id := current_id * 10 in
              plans ← py_iter h1 (dict_get d' "Plans" (VList [])) ;
              for_enumerate
                (λ i child, assign_node_ids fuel' child (child_id + i))
                0 plans h1
          end
      | _ => Raise TypeError (* item assignment on a value that is no dictionary *)
      end
  end.

(** ** Plan trees in the store

    A [ptree] is the skeleton of a plan: the location of each node and, in
    order, the skeletons of its children.  [lays h t] says that the store
    [h] holds a plan of that shape: every node is a dictionary whose
    ["Plans"] entry, when present, is the list of its children. *)

Inductive ptree := PNode (l : loc) (kids : list ptree).

Definition root (t : ptree) : loc := let 'PNode l _ := t in l.

Fixpoint locs (t : ptree) : list loc :=
  match t with PNode l kids => l :: flat_map locs kids end.

Fixpoint depth (t : ptree) : nat :=
  match t with PNode _ kids => S (list_max (map depth kids)) end.

(** Every node has at most [n] children. *)
Fixpoint fanout_le (n : nat) (t : ptree) : bool :=
  match t with
  | PNode _ kids => (length kids <=? n)%nat && forallb (fanout_le n) kids
  end.

Fixpoint refs_match (vs : list val) (ls : list loc) : bool :=
  match vs, ls with
  | [], [] => true
  | VRef l :: vs', l' :: ls' => Pos.eqb l l' && refs_match vs' ls'
  | _, _ => false
  end.

Fixpoint lays (h : heap) (t : ptree) : bool :=
  match t with
  | PNode l kids =>
      match h !! l with
      | Some d =>
          match dict_get d "Plans" (VList []) with
          | VList vs => refs_match vs (map root kids)
          | _ => false
          end && forallb (lays h) kids
      | None => false
      end
  end.

(** A plan tree proper: laid out in the store, no node shared between two
    positions (what [json.loads] builds). *)
Definition plan_tree (h : heap) (t : ptree) : bool :=
  lays h t && bool_decide (NoDup (locs t)).

(** [s] occurs in [t] as a subtree. *)
Inductive subtree (s : ptree) : ptree → Prop :=
| subtree_here : subtree s s
| subtree_kid l kids c : c ∈ kids → subtree s c → subtree s (PNode l kids).

(** Reading a field of the node at [l]. *)
Definition field (h : heap) (l : loc) (key : string) : option val :=
  h !! l ≫= (λ d : pydict, d !! key).

Definition node_id (h : heap) (l : loc) : option Z :=
  match field h l "Node ID" with
  | Some (VInt k) => Some k
  | _ => None
  end.

(** The identifiers of [t] follow the numbering scheme from [k] at the root. *)
Inductive stamped (h : heap) : ptree → Z → Prop :=
| stamped_node l kids k :
    node_id h l = Some k →
    (∀ (i : nat) c, kids !! i = Some c → stamped h c (k * 10 + Z.of_nat i)) →
    stamped h (PNode l kids) k.

(** [h'] differs from [h] at most in the entry [key] of the dictionaries at
    the locations [ls]. *)
Record changes_only (key : string) (ls : list loc) (h h' : heap) : Prop := {
  co_dom : ∀ l, is_Some (h' !! l) ↔ is_Some (h !! l);
  co_outside : ∀ l, l ∉ ls → h' !! l = h !! l;
  co_fields : ∀ l k, k ≠ key → field h' l k = field h l k
}.

(** ** Modification specs

    [modifications] is a Python dictionary from node identifiers to
    dictionaries of overrides.  Its iteration order (insertion order)
    matters to [apply_planner_settings], so it is an association list, in
    iteration order; a well-formed one has no duplicate key.  An override
    dictionary maps the keys ["Scan Type"] and ["Node Type"] to strings. *)

Abbreviation modification := (gmap string string).
Abbreviation modifications := (list (Z * gmap string string)).

(** [modifications[k]], [None] when [k not in modifications]. *)
Fixpoint mods_lookup (k : Z) (mods : modifications) : option modification :=
  match mods with
  | [] => None
  | (k', m) :: rest => if Z.eqb k' k then Some m else mods_lookup k rest
  end.

(** The integer a float is equal to, if any: [1.0 == 1] in Python. *)
Definition int_of_float (f : spec_float) : option Z :=
  match f with
  | S754_zero _ => Some 0
  | S754_finite s m e =>
      if 0 <=? e then Some (cond_Zopp s (Z.pos m * 2 ^ e))
      else if Z.pos m mod 2 ^ (- e) =? 0
           then Some (cond_Zopp s (Z.pos m / 2 ^ (- e)))
           else None
  | S754_infinity _ | S754_nan => None
  end.

(** The key of an integer-keyed dictionary that a value is equal to, as
    [v in modifications] finds it: [True == 1], a string or [None] equals no
    integer, a list or a dictionary cannot be hashed. *)
Definition dict_key (v : val) : outcome (option Z) :=
  match v with
  | VNone | VStr _ => Ret None
  | VInt z => Ret (Some z)
  | VBool b => Ret (Some (Z.b2z b))
  | VFloat f => Ret (int_of_float f)
  | VList _ | VRef _ => Raise TypeError
  end.

(** ** [modify_qep] (whatif.py, lines 47-67) *)

(** Lines 56-59: the two overrides, ["Scan Type"] first. *)
Definition apply_modification (modification : modification) (d : pydict) : pydict :=
  let d1 :=
    match modification !! "Scan Type" with
    | Some scan_type => <["Node Type" := VStr scan_type]> d
    | None => d
    end in
  match modification !! "Node Type" with
  | Some node_type => <["Node Type" := VStr node_type]> d1
  | None => d1
  end.

(** Lines 53-59: what one visit does to the dictionary of the node. *)
Definition change_node (mods : modifications) (d : pydict) : outcome pydict :=
  let node_id := dict_get d "Node ID" VNone in
  key ← dict_key node_id ;
  Ret match key ≫= (λ k, mods_lookup k mods) with
      | Some modification => apply_modification modification d
      | None => d
      end.

(** Lines 52-63. *)
Fixpoint apply_changes (fuel : nat) (node : val) (mods : modifications) (h : heap)
    : outcome heap :=
  match fuel with
  | O => OutOfFuel
  | S fuel' =>
      match node with
      | VRef l =>
          match h !! l with
          | None => Stuck
          | Some d =>
              d' ← change_node mods d ;
              let h1 := <[l := d']> h in
              plans ← py_iter h1 (dict_get d' "Plans" (VList [])) ;
              for_each (λ child, apply_changes fuel' child mods) plans h1
          end
      | _ => Raise AttributeError (* [.get] on a value that is no dictionary *)
      end
  end.

(** Lines 49, 66 and 67.  [original_qep.copy()] allocates one new
    dictionary with the entries of the old one: a shallow copy. *)
Definition modify_qep (fuel : nat) (original_qep : loc) (mods : modifications)
    (h : heap) : outcome (loc * heap) :=
  match h !! original_qep with
  | None => Stuck
  | Some d =>
      let modified_qep := fresh (dom h) in
      let h1 := <[modified_qep := d]> h in
      match d !! "Plan" with
      | None => Raise KeyError
      | Some plan =>
          h2 ← apply_changes fuel plan mods h1 ;
          Ret (modified_qep, h2)
      end
  end.

(** Every node identifier of the plan is absent or an integer. *)
Definition id_ok (h : heap) (l : loc) : bool :=
  match field h l "Node ID" with
  | None | Some (VInt _) => true
  | Some _ => false
  end.

Definition ids_ok (h : heap) (t : ptree) : bool := forallb (id_ok h) (locs t).

(** [x] is [k] followed by some decimal digits: [k * 10^d <= x < (k+1) * 10^d].
    The identifiers below a node numbered [k] all have this form. *)
Definition within (k x : Z) : Prop :=
  ∃ d : nat, k * 10 ^ Z.of_nat d ≤ x < (k + 1) * 10 ^ Z.of_nat d.

(** ** [apply_planner_settings] (whatif.py, lines 77-92) and
    [get_operator_setting] (lines 94-101) *)

Definition get_operator_setting (operator_type : string) : string :=
  let mapping : gmap string string :=
    {[ "Merge Join" :=
         "SET enable_mergejoin = ON; SET enable_hashjoin = OFF; SET enable_nestloop = OFF;";
       "Hash Join" :=
         "SET enable_mergejoin = OFF; SET enable_hashjoin = ON; SET enable_nestloop = OFF;";
       "Nested Loop" :=
         "SET enable_mergejoin = OFF; SET enable_hashjoin = OFF; SET enable_nestloop = ON;" ]} in
  default "" (mapping !! operator_type).

(** [sep.join(l)] *)
Fixpoint join (sep : string) (l : list string) : string :=
  match l with
  | [] => ""
  | [s] => s
  | s :: rest => String.append s (String.append sep (join sep rest))
  end.

(** Lines 82-90: what one entry appends to [settings]. *)
Definition entry_settings (changes : modification) : list string :=
  match changes !! "Scan Type" with
  | Some scan_type =>
      if String.eqb scan_type "Index Scan" then
        ["SET enable_seqscan = OFF; SET enable_indexscan = ON; SET enable_bitmapscan = OFF;"]
      else if String.eqb scan_type "Seq Scan" then
        ["SET enable_seqscan = ON; SET enable_indexscan = OFF; SET enable_bitmapscan = OFF;"]
      else []
  | None => []
  end
  ++
  match changes !! "Node Type" with
  | Some node_type => [get_operator_setting node_type]
  | None => []
  end.

(** Lines 80-90: the loop, [settings] being the list built so far. *)
Fixpoint planner_settings_loop (mods : modifications) (settings : list string)
    : list string :=
  match mods with
  | [] => settings
  | (node_id, changes) :: rest =>
      planner_settings_loop rest (settings ++ entry_settings changes)
  end.

Definition apply_planner_settings (mods : modifications) : string :=
  let settings := planner_settings_loop mods [] in
  join " " settings.

(** ** Reading a settings string

    To say what a settings string asks of the planner, it is read back as
    the engine reads it: blank-separated words, grouped into statements
    [SET name = ON;] and [SET name = OFF;]. *)

Definition cons_word (w : string) (ws : list string) : list string :=
  if String.eqb w "" then ws else w :: ws.

(** The word being read at the head of the string, and the words after it. *)
Fixpoint split_words (s : string) : string * list string :=
  match s with
  | EmptyString => (EmptyString, [])
  | String c s' =>
      let '(w, ws) := split_words s' in
      if Ascii.eqb c " "%char then (EmptyString, cons_word w ws) else (String c w, ws)
  end.

Definition words (s : string) : list string :=
  let '(w, ws) := split_words s in cons_word w ws.

(** A directive: the name of a planner setting and whether it is switched on. *)
Definition directive : Type := string * bool.

Definition is_statement (kw eq v : string) : bool :=
  String.eqb kw "SET" && String.eqb eq "=" && (String.eqb v "ON;" || String.eqb v "OFF;").

Fixpoint read_statements (ws : list string) : list directive :=
  match ws with
  | kw :: ((name :: eq :: v :: rest) as tl) =>
      if is_statement kw eq v
      then (name, String.eqb v "ON;") :: read_statements rest
      else read_statements tl
  | _ => []
  end.

Definition directives (settings : string) : list directive :=
  read_statements (words settings).

(** The directives that concern the settings [names]. *)
Definition about (names : list string) (ds : list directive) : list directive :=
  filter (λ d, bool_decide (d.1 ∈ names)) ds.

Definition scan_settings : list string :=
  ["enable_seqscan"; "enable_indexscan"; "enable_bitmapscan"].

Definition join_settings : list string :=
  ["enable_mergejoin"; "enable_hashjoin"; "enable_nestloop"].

(** Every word list made of whole statements. *)
Fixpoint whole_statements (ws : list string) : bool :=
  match ws with
  | [] => true
  | kw :: name :: eq :: v :: rest => is_statement kw eq v && whole_statements rest
  | _ => false
  end.

(** ** Floats and decimals

    [float_sub] is the subtraction of Python floats: IEEE binary64,
    rounding to nearest, ties to even. *)

Definition float_sub : spec_float → spec_float → spec_float := SFsub 53 1024.

(** The float nearest to [m * 2^e], and the float nearest to an integer. *)
Definition float_lit (m e : Z) : spec_float := binary_normalize 53 1024 m e false.
Definition float_of_Z (z : Z) : spec_float := float_lit z 0.

(** [f == z] for a float [f] and an integer [z]: an exact comparison. *)
Definition float_eq_int (f : spec_float) (z : Z) : bool :=
  match int_of_float f with
  | Some z' => Z.eqb z' z
  | None => false
  end.

(** [|f| <= bound], for a finite [f]. *)
Definition float_abs_le (f : spec_float) (bound : Z) : bool :=
  match f with
  | S754_zero _ => 0 <=? bound
  | S754_finite _ m e =>
      if 0 <=? e then Z.pos m * 2 ^ e <=? bound
      else Z.pos m <=? bound * 2 ^ (- e)
  | S754_infinity _ | S754_nan => false
  end.

(** A [decimal.Decimal]: not-a-number, an infinity, or
    [(-1)^sign * coeff * 10^exp]. *)
Inductive decimal :=
| DNaN
| DInf (sign : bool)
| Dec (sign : bool) (coeff : N) (exp : Z).

(** [Decimal(f)]: the exact value of the float.  For a negative binary
    exponent, [m / 2^k = m * 5^k / 10^k].  (Python first cancels the factors
    of two that [m] and [2^k] share; the value is the same, and no later
    step looks at the digits of this intermediate result.) *)
Definition Decimal_of_float (f : spec_float) : decimal :=
  match f with
  | S754_nan => DNaN
  | S754_infinity s => DInf s
  | S754_zero s => Dec s 0 0
  | S754_finite s m e =>
      if 0 <=? e then Dec s (N.pos m * 2 ^ Z.to_N e) 0
      else Dec s (N.pos m * 5 ^ Z.to_N (- e)) e
  end.

(** The integer nearest to [c / d], ties to the even one. *)
Definition div_half_even (c d : N) : N :=
  let q := (c / d)%N in
  let r := (c mod d)%N in
  match (2 * r ?= d)%N with
  | Lt => q
  | Gt => (q + 1)%N
  | Eq => if N.even q then q else (q + 1)%N
  end.

(** [round(d, 2)] on a [Decimal]: [d.quantize(Decimal("0.01"))] in the
    default context, whose rounding is ROUND_HALF_EVEN and whose precision
    is 28 digits.  [quantize] signals [InvalidOperation] on an infinity and
    when the coefficient of the result would have more than 28 digits; a
    quiet NaN passes through. *)
Definition round2 (d : decimal) : outcome decimal :=
  match d with
  | DNaN => Ret DNaN
  | DInf _ => Raise InvalidOperation
  | Dec s c e =>
      let n :=
        if -2 <=? e then (c * 10 ^ Z.to_N (e + 2))%N
        else div_half_even c (10 ^ Z.to_N (- 2 - e)) in
      if (n <? 10 ^ 28)%N then Ret (Dec s n (-2)) else Raise InvalidOperation
  end.

(** [d2] is the negation of [d1]: same digits and exponent, opposite
    sign (the sign of a zero plays no role). *)
Definition dec_opposite (d1 d2 : decimal) : Prop :=
  match d1, d2 with
  | DNaN, DNaN => True
  | DInf s1, DInf s2 => s2 = negb s1
  | Dec s1 c1 e1, Dec s2 c2 e2 =>
      c2 = c1 ∧ e2 = e1 ∧ (c1 = 0%N ∨ s2 = negb s1)
  | _, _ => False
  end.

(** The rational number a finite float, or a finite decimal, stands for
    (0 for the others, which the statements below exclude). *)
Definition signed (s : bool) (x : Q) : Q := if s then Qopp x else x.

Definition float_to_Q (f : spec_float) : Q :=
  match f with
  | S754_finite s m e =>
      signed s (if 0 <=? e then inject_Z (Z.pos m * 2 ^ e)
                else Z.pos m # Z.to_pos (2 ^ (- e)))
  | _ => 0%Q
  end.

Definition dec_to_Q (d : decimal) : Q :=
  match d with
  | Dec s c e =>
      signed s (if 0 <=? e then inject_Z (Z.of_N c * 10 ^ e)
                else Z.of_N c # Z.to_pos (10 ^ (- e)))
  | _ => 0%Q
  end.

(** ** [compare_costs] (whatif.py, lines 132-154)

    The function prints its arguments and its results; of this output only
    the failure of [json.dumps] is modelled.

    [float] applied to a string parses it; the grammar of Python's float
    literals is not part of this program and is a parameter here:
    [float_of_str s] is the float [s] denotes, [None] when [float(s)] raises
    [ValueError]. *)

(** [for v in vs: write(v)] *)
Fixpoint dump_all (write : val → outcome unit) (vs : list val) : outcome unit :=
  match vs with
  | [] => Ret tt
  | v :: rest => _ ← write v ; dump_all write rest
  end.

(** [json.dumps(v)], lines 135 and 136, as far as it can fail: the text it
    builds is only printed.  On values made by [json.loads] and the
    assignments of this file, the one failure is a dictionary that contains
    itself, on which [json.dumps] raises
    [ValueError("Circular reference detected")].  [path] holds the
    dictionaries being written.  (The order in which the entries of a
    dictionary are written decides only which of several failures is
    reported.) *)
Fixpoint json_dumps (fuel : nat) (h : heap) (path : list loc) (v : val)
    : outcome unit :=
  match fuel with
  | O => OutOfFuel
  | S fuel' =>
      match v with
      | VList vs => dump_all (json_dumps fuel' h path) vs
      | VRef l =>
          if bool_decide (l ∈ path)
          then Raise (ValueError "Circular reference detected")
          else match h !! l with
               | None => Stuck
               | Some d =>
                   dump_all (json_dumps fuel' h (l :: path)) (map_to_list d).*2
               end
      | VNone | VBool _ | VInt _ | VFloat _ | VStr _ => Ret tt
      end
  end.

(** The debug print of a QEP goes through: the QEP is a JSON document. *)
Definition printable (fuel : nat) (h : heap) (qep : loc) : bool :=
  match json_dumps fuel h [] (VRef qep) with
  | Ret _ => true
  | _ => false
  end.

Section costs.
Variable float_of_str : string → option spec_float.

(** [float(v)] *)
Definition py_float (v : val) : outcome spec_float :=
  match v with
  | VFloat f => Ret f
  | VInt z =>
      match float_of_Z z with
      | S754_infinity _ => Raise OverflowError
      | f => Ret f
      end
  | VBool b => Ret (float_of_Z (Z.b2z b))
  | VStr s =>
      match float_of_str s with
      | Some f => Ret f
      | None => Raise FloatValueError
      end
  | VNone | VList _ | VRef _ => Raise TypeError
  end.

(** [float(qep["Plan"].get("Total Cost", -1))], lines 138 and 139. *)
Definition read_total_cost (h : heap) (qep : loc) : outcome spec_float :=
  match h !! qep with
  | None => Stuck
  | Some d =>
      match d !! "Plan" with
      | None => Raise KeyError
      | Some (VRef p) =>
          match h !! p with
          | None => Stuck
          | Some plan => py_float (dict_get plan "Total Cost" (VInt (-1)))
          end
      | Some _ => Raise AttributeError (* [.get] on a value that is no dictionary *)
      end
  end.

Record cost_comparison := {
  original_cost : spec_float;
  modified_cost : spec_float;
  cost_difference : decimal
}.

Definition cost_failure : exn :=
  ValueError "Failed to retrieve cost from QEP or AQP.".

Definition compare_costs (fuel : nat) (h : heap) (qep aqp : loc)
    : outcome cost_comparison :=
  _ ← json_dumps fuel h [] (VRef qep) ;
  _ ← json_dumps fuel h [] (VRef aqp) ;
  original_cost ← read_total_cost h qep ;
  modified_cost ← read_total_cost h aqp ;
  cost_difference ← round2 (Decimal_of_float (float_sub modified_cost original_cost)) ;
  if float_eq_int original_cost (-1) || float_eq_int modified_cost (-1)
  then Raise cost_failure
  else Ret {| original_cost := original_cost;
              modified_cost := modified_cost;
              cost_difference := cost_difference |}.

End costs.

(** The entry ["Total Cost"] of the root of the plan of a QEP. *)
Definition root_total_cost (h : heap) (qep : loc) : option val :=
  match field h qep "Plan" with
  | Some (VRef p) => field h p "Total Cost"
  | _ => None
  end.

(** The root of the plan of [qep] is a dictionary of the store. *)
Definition has_plan (h : heap) (qep : loc) : bool :=
  match field h qep "Plan" with
  | Some (VRef p) => bool_decide (is_Some (h !! p))
  | _ => false
  end.

(** ** Example data

    A small store: a QEP dictionary at location 10 whose plan is a hash
    join (location 1) over an index scan (2) and a hash (3) of a sequential
    scan (4). *)

Definition example_store : heap :=
  <[10%positive := {[ "Plan" := VRef 1%positive ]}]>
  (<[1%positive := {[ "Node Type" := VStr "Hash Join";
                      "Plans" := VList [VRef 2%positive; VRef 3%positive] ]}]>
  (<[2%positive := {[ "Node Type" := VStr "Index Scan";
                      "Relation Name" := VStr "orders" ]}]>
  (<[3%positive := {[ "Node Type" := VStr "Hash";
                      "Plans" := VList [VRef 4%positive] ]}]>
  (<[4%positive := {[ "Node Type" := VStr "Seq Scan";
                      "Relation Name" := VStr "customer";
                      "Plans" := VList [] ]}]> ∅)))).

Definition example_tree : ptree :=
  PNode 1%positive [PNode 2%positive []; PNode 3%positive [PNode 4%positive []]].

(** The example store after [assign_node_ids], and a modification spec
    that overrides the root (identifier 1) twice and the sequential scan
    (identifier 110) once. *)
Definition example_stamped : heap :=
  match assign_node_ids 3 (VRef 1%positive) 1 example_store with
  | Ret h => h
  | _ => ∅
  end.

Definition example_mods : modifications :=
  [ (1, {[ "Scan Type" := "Seq Scan"; "Node Type" := "Merge Join" ]});
    (110, {[ "Scan Type" := "Index Scan" ]}) ].

(** A store with two QEPs, at locations 1 and 2, whose plan roots hold the
    given ["Total Cost"] entries (none when [None]). *)
Definition plan_with_cost (c : option val) : pydict :=
  match c with
  | Some v => {[ "Node Type" := VStr "Seq Scan"; "Total Cost" := v ]}
  | None => {[ "Node Type" := VStr "Seq Scan" ]}
  end.

Definition cost_store (c1 c2 : option val) : heap :=
  <[1%positive := {[ "Plan" := VRef 3%positive ]}]>
  (<[2%positive := {[ "Plan" := VRef 4%positive ]}]>
  (<[3%positive := plan_with_cost c1]>
  (<[4%positive := plan_with_cost c2]> ∅))).

(** A parser for the examples: it accepts no string. *)
Definition no_float_of_str (s : string) : option spec_float := None.

Definition f100 : spec_float := float_of_Z 100.        (* 100.0 *)
Definition f85_5 : spec_float := float_lit 171 (-1).   (* 85.5 *)
Definition fm1 : spec_float := float_of_Z (-1).        (* -1.0 *)
Definition f1e30 : spec_float := float_of_Z (10 ^ 30). (* 1e30 *)

(** * Properties *)

(** ** Plan trees: induction and basic facts *)

Lemma ptree_ind' (P : ptree → Prop) :
  (∀ l kids, Forall P kids → P (PNode l kids)) → ∀ t, P t.
Proof.
  intros step. fix IH 1. intros [l kids]. apply step.
  induction kids as [|c cs IHcs]; constructor; [apply IH | exact IHcs].
Qed.

Lemma elem_of_flat_map {A B} (f : A → list B) (l : list A) (y : B) :
  y ∈ flat_map f l ↔ ∃ x, x ∈ l ∧ y ∈ f x.
Proof.
  rewrite list_elem_of_In, in_flat_map. split.
  - intros (x & Hx & Hy). exists x. by rewrite !list_elem_of_In.
  - intros (x & Hx & Hy). exists x. by rewrite <- !list_elem_of_In.
Qed.

Lemma refs_match_spec vs ls : refs_match vs ls = true ↔ vs = VRef <$> ls.
Proof.
  revert ls. induction vs as [|v vs IH]; intros [|l' ls]; simpl; try done.
  - destruct v; done.
  - destruct v; try done. rewrite andb_true_iff, Pos.eqb_eq, IH.
    split; [intros [-> ->]; done | intros [= -> ->]; done].
Qed.

Lemma forallb_Forall {A} (f : A → bool) (l : list A) :
  forallb f l = true ↔ Forall (λ x, f x = true) l.
Proof.
  induction l as [|x l IH]; simpl; [by split|].
  rewrite andb_true_iff, IH, Forall_cons. done.
Qed.

Lemma lays_node h l kids :
  lays h (PNode l kids) = true ↔
  ∃ d, h !! l = Some d
       ∧ dict_get d "Plans" (VList []) = VList (VRef <$> map root kids)
       ∧ Forall (λ c, lays h c = true) kids.
Proof.
  simpl. destruct (h !! l) as [d|]; [|split; [done | intros (? & ? & _); done]].
  rewrite andb_true_iff, forallb_Forall. split.
  - intros [Hp Hk]. exists d. split; [done|]. split; [|done].
    destruct (dict_get d "Plans" (VList [])); try done.
    apply refs_match_spec in Hp. by rewrite Hp.
  - intros (d' & [= <-] & Hp & Hk). split; [|done].
    rewrite Hp. by apply refs_match_spec.
Qed.

Lemma locs_kid l kids c x : c ∈ kids → x ∈ locs c → x ∈ locs (PNode l kids).
Proof.
  intros Hc Hx. simpl. apply list_elem_of_further, elem_of_flat_map. eauto.
Qed.

Lemma lays_in_heap h t : lays h t = true → ∀ l, l ∈ locs t → is_Some (h !! l).
Proof.
  induction t as [l kids IH] using ptree_ind'. intros Hl x Hx.
  apply lays_node in Hl as (d & Hd & _ & Hk).
  simpl in Hx. apply elem_of_cons in Hx as [->|Hx]; [by eexists|].
  apply elem_of_flat_map in Hx as (c & Hc & Hx).
  rewrite Forall_forall in IH, Hk. eapply IH; eauto.
Qed.

(** ** Stores that differ in one entry of some dictionaries *)

Lemma changes_only_insert key l d d' (h : heap) :
  h !! l = Some d →
  (∀ k, k ≠ key → d' !! k = d !! k) →
  changes_only key [l] h (<[l := d']> h).
Proof.
  intros Hd Hk. split.
  - intros x. destruct (decide (l = x)) as [<-|Hne].
    + rewrite lookup_insert_eq, Hd. split; eauto.
    + by rewrite lookup_insert_ne.
  - intros x Hx. rewrite lookup_insert_ne; [done|].
    intros <-. apply Hx, list_elem_of_here.
  - intros x k Hne. unfold field. destruct (decide (l = x)) as [<-|Hx].
    + rewrite lookup_insert_eq, Hd. simpl. by apply Hk.
    + by rewrite lookup_insert_ne.
Qed.

Lemma changes_only_trans key ls1 ls2 (h1 h2 h3 : heap) :
  changes_only key ls1 h1 h2 → changes_only key ls2 h2 h3 →
  changes_only key (ls1 ++ ls2) h1 h3.
Proof.
  intros [D1 O1 F1] [D2 O2 F2]. split.
  - intros l. by rewrite D2, D1.
  - intros l Hl. rewrite elem_of_app in Hl.
    rewrite O2, O1; [done| |]; intros ?; apply Hl; auto.
  - intros l k Hk. by rewrite F2, F1.
Qed.

Lemma changes_only_lookup key ls (h h' : heap) l d :
  changes_only key ls h h' → h !! l = Some d →
  ∃ d', h' !! l = Some d' ∧ ∀ k, k ≠ key → d' !! k = d !! k.
Proof.
  intros [D O F] Hd.
  destruct (proj2 (D l)) as [d' Hd']; [by eexists|].
  exists d'. split; [done|]. intros k Hk.
  specialize (F l k Hk). unfold field in F. by rewrite Hd, Hd' in F.
Qed.

Lemma lays_changes_only key ls (h h' : heap) t :
  key ≠ "Plans" → changes_only key ls h h' → lays h t = true → lays h' t = true.
Proof.
  intros Hkey Hco. induction t as [l kids IH] using ptree_ind'.
  rewrite !lays_node. intros (d & Hd & Hp & Hk).
  destruct (changes_only_lookup _ _ _ _ _ _ Hco Hd) as (d' & Hd' & Hsame).
  exists d'. split; [done|]. split.
  - unfold dict_get in *. rewrite Hsame; [done | congruence].
  - rewrite Forall_forall in *. auto.
Qed.

Lemma ids_ok_changes_only key ls (h h' : heap) t :
  key ≠ "Node ID" → changes_only key ls h h' → ids_ok h t = true → ids_ok h' t = true.
Proof.
  intros Hkey [_ _ F]. unfold ids_ok. rewrite !forallb_Forall.
  intros H. eapply Forall_impl; [exact H|].
  intros l. simpl. unfold id_ok. rewrite F; [done | congruence].
Qed.

(** ** The loop over the children of a node

    Both tree walks of the source have the same shape: update the
    dictionary of the node, then visit the children in order.  The loop is
    treated once, for any body that meets its contract on every child. *)

Section loop.
Context (body : Z → val → heap → outcome heap) (key : string).
Context (Pre : heap → ptree → Prop) (Post : heap → heap → ptree → Z → Prop).
Hypothesis key_not_plans : key ≠ "Plans".
Hypothesis Pre_stable : ∀ ls h h' c,
  changes_only key ls h h' → Pre h c → Pre h' c.
Hypothesis Post_local : ∀ h1 h1' h2 h2' c i,
  Post h1 h1' c i →
  (∀ l, l ∈ locs c → h2 !! l = h1 !! l) →
  (∀ l, l ∈ locs c → h2' !! l = h1' !! l) →
  Post h2 h2' c i.

Lemma for_enumerate_kids kids :
  Forall (λ c, ∀ i h, lays h c = true → NoDup (locs c) → Pre h c →
    ∃ h', body i (VRef (root c)) h = Ret h'
          ∧ changes_only key (locs c) h h' ∧ Post h h' c i) kids →
  ∀ i h,
    Forall (λ c, lays h c = true) kids →
    NoDup (flat_map locs kids) →
    Forall (Pre h) kids →
    ∃ h', for_enumerate body i (VRef <$> map root kids) h = Ret h'
          ∧ changes_only key (flat_map locs kids) h h'
          ∧ ∀ (j : nat) c, kids !! j = Some c → Post h h' c (i + Z.of_nat j).
Proof.
  induction kids as [|c cs IH]; intros Hbody i h Hlays Hnd Hpre.
  - exists h. split; [done|]. split; [|intros j c; by rewrite lookup_nil].
    split; done.
  - apply Forall_cons in Hbody as [Hc Hcs].
    apply Forall_cons in Hlays as [Lc Lcs].
    apply Forall_cons in Hpre as [Pc Pcs].
    simpl in Hnd. apply NoDup_app in Hnd as (Nc & Ndisj & Ncs).
    destruct (Hc i h Lc Nc Pc) as (h1 & E1 & C1 & Q1).
    destruct (IH Hcs (i + 1) h1) as (h2 & E2 & C2 & Q2); [| done |  |].
    { eapply Forall_impl; [exact Lcs|]. intros c'. simpl.
      by eapply lays_changes_only. }
    { eapply Forall_impl; [exact Pcs|]. intros c'. simpl. by eapply Pre_stable. }
    exists h2. split; [|split].
    + simpl. rewrite E1. simpl. exact E2.
    + simpl. by eapply changes_only_trans.
    + intros [|j] c'; simpl.
      * intros [= <-]. rewrite Z.add_0_r.
        eapply Post_local; [exact Q1 | done |].
        intros l Hl. apply (co_outside _ _ _ _ C2). by apply Ndisj.
      * intros Hj. replace (i + Z.of_nat (S j)) with (i + 1 + Z.of_nat j) by lia.
        eapply Post_local; [by apply Q2 | | done].
        intros l Hl. symmetry. apply (co_outside _ _ _ _ C1).
        intros Hl'. eapply Ndisj; [exact Hl'|].
        apply elem_of_flat_map. exists c'. split; [|done].
        by eapply list_elem_of_lookup_2.
Qed.
End loop.

(** ** [assign_node_ids] on a plan tree *)

Lemma node_id_local (h h' : heap) l : h' !! l = h !! l → node_id h' l = node_id h l.
Proof. intros E. unfold node_id, field. by rewrite E. Qed.

Lemma stamped_local h h' t k :
  stamped h t k → (∀ l, l ∈ locs t → h' !! l = h !! l) → stamped h' t k.
Proof.
  induction 1 as [l kids k Hid Hkids IH]. intros Hsame. constructor.
  - rewrite (node_id_local h h'); [done|]. apply Hsame, list_elem_of_here.
  - intros i c Hc. apply IH; [done|]. intros x Hx. apply Hsame.
    eapply locs_kid; [|done]. by eapply list_elem_of_lookup_2.
Qed.

Lemma depth_kid l kids c (n : nat) :
  (depth (PNode l kids) ≤ S n)%nat → c ∈ kids → (depth c ≤ n)%nat.
Proof.
  simpl. intros Hd Hc. apply le_S_n in Hd.
  apply list_max_le in Hd. rewrite List.Forall_forall in Hd.
  apply Hd, in_map, list_elem_of_In, Hc.
Qed.

Lemma assign_node_ids_tree t :
  ∀ fuel k h,
    lays h t = true → NoDup (locs t) → (depth t ≤ fuel)%nat →
    ∃ h', assign_node_ids fuel (VRef (root t)) k h = Ret h'
          ∧ changes_only "Node ID" (locs t) h h'
          ∧ stamped h' t k.
Proof.
  induction t as [l kids IH] using ptree_ind'.
  intros [|fuel] k h Hl Hnd Hdepth; [simpl in Hdepth; lia|].
  apply lays_node in Hl as (d & Hd & Hp & Hk).
  simpl in Hnd. apply NoDup_cons in Hnd as [Hroot Hnd].
  set (d' := <["Node ID" := VInt k]> d).
  assert (Hco : changes_only "Node ID" [l] h (<[l := d']> h)).
  { eapply changes_only_insert; [done|]. intros key Hkey.
    subst d'. by rewrite lookup_insert_ne. }
  destruct (for_enumerate_kids
              (λ i child, assign_node_ids fuel child (k * 10 + i))
              "Node ID" (λ _ _, True) (λ _ h' c i, stamped h' c (k * 10 + i)))
    with (kids := kids) (i := 0) (h := <[l := d']> h)
    as (h2 & E & C & Q); try done.
  - intros h1 h1' h2 h2' c i S1 _ S2. by apply (stamped_local h1').
  - rewrite Forall_forall in IH |- *. intros c Hc i h0 L N _.
    apply IH; [done..|]. by eapply depth_kid.
  - eapply Forall_impl; [exact Hk|]. intros c. simpl.
    by apply (lays_changes_only "Node ID" [l]).
  - by apply Forall_true.
  - exists h2. split; [|split].
    + simpl. rewrite Hd. fold d'.
      replace (dict_get d' "Plans" (VList [])) with (VList (VRef <$> map root kids)).
      { simpl. exact E. }
      rewrite <- Hp. unfold dict_get. subst d'. by rewrite lookup_insert_ne.
    + apply (changes_only_trans _ [l] _ _ _ _ Hco C).
    + constructor.
      * rewrite (node_id_local (<[l := d']> h)); [|by apply C].
        unfold node_id, field. rewrite lookup_insert_eq. simpl.
        subst d'. by rewrite lookup_insert_eq.
      * intros i c Hc. specialize (Q i c Hc). by rewrite Z.add_0_l in Q.
Qed.

(** ** The numbering scheme: identifiers are decimal paths *)

Lemma within_self k : within k k.
Proof. exists O. simpl. lia. Qed.

Lemma within_child k i x : 0 ≤ i ≤ 9 → within (k * 10 + i) x → within k x.
Proof.
  intros Hi [d Hd]. exists (S d).
  rewrite Nat2Z.inj_succ, Z.pow_succ_r by lia.
  assert (0 < 10 ^ Z.of_nat d) by (apply Z.pow_pos_nonneg; lia). nia.
Qed.

Lemma within_ge k x : 0 ≤ k → within k x → k ≤ x.
Proof.
  intros Hk [d Hd].
  assert (0 < 10 ^ Z.of_nat d) by (apply Z.pow_pos_nonneg; lia). nia.
Qed.

Lemma pow10_split (d e : nat) :
  (d < e)%nat → ∃ q, 10 ≤ q ∧ 10 ^ Z.of_nat e = 10 ^ Z.of_nat d * q.
Proof.
  intros Hlt. exists (10 ^ Z.of_nat (e - d)). split.
  - replace (Z.of_nat (e - d)) with (Z.succ (Z.of_nat (e - d - 1))) by lia.
    rewrite Z.pow_succ_r by lia.
    assert (0 < 10 ^ Z.of_nat (e - d - 1)) by (apply Z.pow_pos_nonneg; lia). lia.
  - rewrite <- Z.pow_add_r by lia. f_equal. lia.
Qed.

Lemma within_siblings k i j x :
  1 ≤ k → 0 ≤ i → i < j → j ≤ 9 →
  within (k * 10 + i) x → within (k * 10 + j) x → False.
Proof.
  intros Hk Hi Hij Hj [d Hd] [e He].
  assert (Pd : 0 < 10 ^ Z.of_nat d) by (apply Z.pow_pos_nonneg; lia).
  assert (Pe : 0 < 10 ^ Z.of_nat e) by (apply Z.pow_pos_nonneg; lia).
  destruct (lt_eq_lt_dec d e) as [[Hlt| ->]|Hgt].
  - destruct (pow10_split d e Hlt) as (q & Hq & Eq). rewrite Eq in He. nia.
  - nia.
  - destruct (pow10_split e d Hgt) as (q & Hq & Eq). rewrite Eq in Hd. nia.
Qed.

Lemma fanout_le_node n l kids :
  fanout_le n (PNode l kids) = true ↔
  (length kids ≤ n)%nat ∧ ∀ c, c ∈ kids → fanout_le n c = true.
Proof.
  simpl. rewrite andb_true_iff, Nat.leb_le, forallb_Forall, Forall_forall. done.
Qed.

Lemma fanout_le_mono n m t : (n ≤ m)%nat → fanout_le n t = true → fanout_le m t = true.
Proof.
  intros Hnm. induction t as [l kids IH] using ptree_ind'.
  rewrite !fanout_le_node. intros [Hlen Hk]. split; [lia|].
  rewrite Forall_forall in IH. auto.
Qed.

Lemma elem_of_locs_kids x kids :
  x ∈ flat_map locs kids → ∃ (i : nat) c, kids !! i = Some c ∧ x ∈ locs c.
Proof.
  intros (c & Hc & Hx)%elem_of_flat_map.
  apply list_elem_of_lookup_1 in Hc as [i Hi]. eauto.
Qed.

Lemma stamped_within h t k :
  stamped h t k → fanout_le 10 t = true →
  ∀ l, l ∈ locs t → ∃ x, node_id h l = Some x ∧ within k x.
Proof.
  induction 1 as [l kids k Hid Hkids IH]. intros Hf x Hx.
  apply fanout_le_node in Hf as [Hlen Hf].
  simpl in Hx. apply elem_of_cons in Hx as [->|Hx].
  - exists k. split; [done | apply within_self].
  - apply elem_of_locs_kids in Hx as (i & c & Hc & Hx).
    destruct (IH i c Hc) with (l := x) as (y & Hy & Hw); [|done|].
    { apply Hf. by eapply list_elem_of_lookup_2. }
    exists y. split; [done|]. eapply within_child; [|exact Hw].
    apply lookup_lt_Some in Hc. lia.
Qed.

Lemma stamped_inj h t k :
  stamped h t k → 1 ≤ k → fanout_le 10 t = true →
  ∀ l1 l2, l1 ∈ locs t → l2 ∈ locs t → node_id h l1 = node_id h l2 → l1 = l2.
Proof.
  induction 1 as [l kids k Hid Hkids IH]. intros Hk Hf l1 l2 H1 H2 Heq.
  pose proof (stamped_node h l kids k Hid Hkids) as Hst.
  apply fanout_le_node in Hf as [Hlen Hf].
  assert (Hkid : ∀ x, x ∈ flat_map locs kids →
            ∃ (i : nat) c y, kids !! i = Some c ∧ x ∈ locs c ∧ (i < 10)%nat
                     ∧ node_id h x = Some y ∧ within (k * 10 + Z.of_nat i) y).
  { intros x (i & c & Hc & Hx)%elem_of_locs_kids.
    destruct (stamped_within h c (k * 10 + Z.of_nat i)) with (l := x)
      as (y & Hy & Hw); [by apply Hkids | | done |].
    { apply Hf. by eapply list_elem_of_lookup_2. }
    exists i, c, y. apply lookup_lt_Some in Hc as Hi. repeat split; try done. lia. }
  simpl in H1, H2.
  apply elem_of_cons in H1 as [->|H1]; apply elem_of_cons in H2 as [->|H2].
  - done.
  - destruct (Hkid _ H2) as (i & c & y & _ & _ & Hi & Hy & Hw).
    rewrite Hid, Hy in Heq. injection Heq as ->.
    apply within_ge in Hw; lia.
  - destruct (Hkid _ H1) as (i & c & y & _ & _ & Hi & Hy & Hw).
    rewrite Hid, Hy in Heq. injection Heq as <-.
    apply within_ge in Hw; lia.
  - destruct (Hkid _ H1) as (i & ci & y & Hci & Hx1 & Hi & Hy & Hwi).
    destruct (Hkid _ H2) as (j & cj & y' & Hcj & Hx2 & Hj & Hy' & Hwj).
    rewrite Hy, Hy' in Heq. injection Heq as <-.
    destruct (lt_eq_lt_dec i j) as [[Hlt| ->]|Hgt].
    + exfalso. eapply (within_siblings k (Z.of_nat i) (Z.of_nat j)); eauto; lia.
    + rewrite Hci in Hcj. injection Hcj as <-.
      eapply (IH j ci Hci); try done; [lia | | congruence].
      apply Hf. by eapply list_elem_of_lookup_2.
    + exfalso. eapply (within_siblings k (Z.of_nat j) (Z.of_nat i)); eauto; lia.
Qed.

Lemma stamped_subtree h t k s :
  stamped h t k → subtree s t → ∃ k', stamped h s k'.
Proof.
  intros Hst Hsub. revert k Hst.
  induction Hsub as [|l kids c Hc Hsub IH]; intros k Hst; [eauto|].
  inversion Hst as [? ? ? Hid Hkids]; subst.
  apply list_elem_of_lookup_1 in Hc as [i Hi]. eauto.
Qed.

(** C1.  On a plan tree in which every node has at most 9 children,
    [assign_node_ids] (called on the root with the default identifier 1, and
    with a recursion budget that covers the depth of the tree) returns; in
    the resulting store the tree has the shape it had, the root has
    identifier 1, the [i]-th child (from 0) of a node with identifier [k] has
    identifier [k * 10 + i], every node has an identifier, and two different
    nodes have different identifiers. *)
Theorem assign_node_ids_numbering (fuel : nat) (h : heap) (t : ptree) :
  plan_tree h t = true →
  fanout_le 9 t = true →
  (depth t ≤ fuel)%nat →
  ∃ h', assign_node_ids fuel (VRef (root t)) 1 h = Ret h'
        ∧ lays h' t = true
        ∧ node_id h' (root t) = Some 1
        ∧ (∀ l kids (i : nat) c,
             subtree (PNode l kids) t → kids !! i = Some c →
             ∃ k, node_id h' l = Some k
                  ∧ node_id h' (root c) = Some (k * 10 + Z.of_nat i))
        ∧ (∀ l, l ∈ locs t → is_Some (node_id h' l))
        ∧ (∀ l1 l2, l1 ∈ locs t → l2 ∈ locs t → l1 ≠ l2 →
             node_id h' l1 ≠ node_id h' l2).
Proof.
  unfold plan_tree. rewrite andb_true_iff, bool_decide_eq_true.
  intros [Hl Hnd] Hf Hd.
  destruct (assign_node_ids_tree t fuel 1 h Hl Hnd Hd) as (h' & E & C & S).
  apply (fanout_le_mono 9 10) in Hf; [|lia].
  exists h'. split; [done|]. split; [|split; [|split; [|split]]].
  - by apply (lays_changes_only "Node ID" (locs t) h).
  - inversion S; subst. done.
  - intros l kids i c Hsub Hc.
    destruct (stamped_subtree _ _ _ _ S Hsub) as (k & Sk).
    inversion Sk as [? ? ? Hid Hkids]; subst. exists k. split; [done|].
    specialize (Hkids i c Hc). inversion Hkids; subst. done.
  - intros l Hin. destruct (stamped_within _ _ _ S Hf l Hin) as (x & -> & _). eauto.
  - intros l1 l2 H1 H2 Hne Heq. apply Hne. by eapply stamped_inj.
Qed.

Lemma assign_node_ids_numbering_witness :
  ∃ h', assign_node_ids 3 (VRef (root example_tree)) 1 example_store = Ret h'
        ∧ lays h' example_tree = true
        ∧ node_id h' (root example_tree) = Some 1
        ∧ (∀ l kids (i : nat) c,
             subtree (PNode l kids) example_tree → kids !! i = Some c →
             ∃ k, node_id h' l = Some k
                  ∧ node_id h' (root c) = Some (k * 10 + Z.of_nat i))
        ∧ (∀ l, l ∈ locs example_tree → is_Some (node_id h' l))
        ∧ (∀ l1 l2, l1 ∈ locs example_tree → l2 ∈ locs example_tree → l1 ≠ l2 →
             node_id h' l1 ≠ node_id h' l2).
Proof.
  apply (assign_node_ids_numbering 3 example_store example_tree).
  - vm_compute. reflexivity.
  - vm_compute. reflexivity.
  - vm_compute. lia.
Defined.

(** The identifiers of the example plan: 1 at the root, 10 and 11 below it,
    110 below 11. *)
Example assign_node_ids_example :
  match assign_node_ids 3 (VRef 1%positive) 1 example_store with
  | Ret h' =>
      node_id h' 1%positive = Some 1
      ∧ node_id h' 2%positive = Some 10
      ∧ node_id h' 3%positive = Some 11
      ∧ node_id h' 4%positive = Some 110
      ∧ field h' 2%positive "Relation Name" = Some (VStr "orders")
  | _ => False
  end.
Proof. vm_compute. repeat split. Qed.

(** Too small a budget is reported as such, not as a result. *)
Example assign_node_ids_out_of_fuel :
  assign_node_ids 2 (VRef 1%positive) 1 example_store = OutOfFuel.
Proof. vm_compute. reflexivity. Qed.

(** ** [apply_changes] on a plan tree *)

Lemma apply_modification_other m d key :
  key ≠ "Node Type" → apply_modification m d !! key = d !! key.
Proof.
  intros Hk. unfold apply_modification.
  destruct (m !! "Node Type"), (m !! "Scan Type");
    rewrite ?lookup_insert_ne by done; done.
Qed.

Lemma apply_modification_node_type m d n :
  m !! "Node Type" = Some n →
  apply_modification m d !! "Node Type" = Some (VStr n).
Proof. intros Hn. unfold apply_modification. rewrite Hn. apply lookup_insert_eq. Qed.

Lemma apply_modification_scan_type m d s :
  m !! "Node Type" = None → m !! "Scan Type" = Some s →
  apply_modification m d !! "Node Type" = Some (VStr s).
Proof. intros Hn Hs. unfold apply_modification. rewrite Hn, Hs. apply lookup_insert_eq. Qed.

Lemma change_node_other mods d d' key :
  change_node mods d = Ret d' → key ≠ "Node Type" → d' !! key = d !! key.
Proof.
  unfold change_node. destruct (dict_key _) as [k| | |]; simpl; try done.
  intros [= <-] Hk. destruct (k ≫= _); [by apply apply_modification_other | done].
Qed.

(** A node whose identifier is the integer [k] gets the overrides stored
    under [k]; a node without identifier is left alone. *)
Lemma change_node_int mods d k :
  d !! "Node ID" = Some (VInt k) →
  change_node mods d =
    Ret match mods_lookup k mods with
        | Some m => apply_modification m d
        | None => d
        end.
Proof. intros Hk. unfold change_node, dict_get. by rewrite Hk. Qed.

Lemma change_node_no_id mods d :
  d !! "Node ID" = None → change_node mods d = Ret d.
Proof. intros Hk. unfold change_node, dict_get. by rewrite Hk. Qed.

Lemma change_node_ok mods (h : heap) l d :
  h !! l = Some d → id_ok h l = true → ∃ d', change_node mods d = Ret d'.
Proof.
  intros Hd. unfold id_ok, field. rewrite Hd. simpl.
  destruct (d !! "Node ID") as [[]|] eqn:E; try done; intros _.
  - rewrite (change_node_int _ _ _ E). eauto.
  - rewrite (change_node_no_id _ _ E). eauto.
Qed.

Lemma ids_ok_node h l kids :
  ids_ok h (PNode l kids) = true ↔
  id_ok h l = true ∧ Forall (λ c, ids_ok h c = true) kids.
Proof.
  unfold ids_ok. simpl. rewrite andb_true_iff. f_equiv.
  rewrite forallb_Forall, !Forall_forall. split.
  - intros H c Hc. apply forallb_Forall, Forall_forall. intros x Hx.
    apply H, elem_of_flat_map. eauto.
  - intros H x (c & Hc & Hx)%elem_of_flat_map.
    specialize (H c Hc). rewrite forallb_Forall, Forall_forall in H. auto.
Qed.

Lemma apply_changes_tree mods t :
  ∀ fuel h,
    lays h t = true → NoDup (locs t) → ids_ok h t = true → (depth t ≤ fuel)%nat →
    ∃ h', apply_changes fuel (VRef (root t)) mods h = Ret h'
          ∧ changes_only "Node Type" (locs t) h h'
          ∧ ∀ l, l ∈ locs t →
              ∃ d d', h !! l = Some d ∧ change_node mods d = Ret d'
                      ∧ h' !! l = Some d'.
Proof.
  induction t as [l kids IH] using ptree_ind'.
  intros [|fuel] h Hl Hnd Hids Hdepth; [simpl in Hdepth; lia|].
  apply lays_node in Hl as (d & Hd & Hp & Hk).
  apply ids_ok_node in Hids as [Hid Hids].
  simpl in Hnd. apply NoDup_cons in Hnd as [Hroot Hnd].
  destruct (change_node_ok mods h l d Hd Hid) as [d' Hd'].
  assert (Hco : changes_only "Node Type" [l] h (<[l := d']> h)).
  { eapply changes_only_insert; [done|]. intros key Hkey.
    by eapply change_node_other. }
  destruct (for_enumerate_kids
              (λ _ child, apply_changes fuel child mods)
              "Node Type" (λ h c, ids_ok h c = true)
              (λ h h' c _, ∀ x, x ∈ locs c →
                 ∃ e e', h !! x = Some e ∧ change_node mods e = Ret e'
                         ∧ h' !! x = Some e'))
    with (kids := kids) (i := 0) (h := <[l := d']> h)
    as (h2 & E & C & Q); try done.
  - intros ls h1 h1' c Hc. by apply (ids_ok_changes_only "Node Type" ls).
  - intros h1 h1' h2 h2' c i P S1 S2 x Hx.
    destruct (P x Hx) as (e & e' & He & Hc & He').
    exists e, e'. by rewrite S1, S2.
  - rewrite Forall_forall in IH |- *. intros c Hc _ h0 L N I.
    apply IH; [done..|]. by eapply depth_kid.
  - eapply Forall_impl; [exact Hk|]. intros c. simpl.
    by apply (lays_changes_only "Node Type" [l]).
  - eapply Forall_impl; [exact Hids|]. intros c. simpl.
    by apply (ids_ok_changes_only "Node Type" [l]).
  - exists h2. split; [|split].
    + simpl. rewrite Hd, Hd'. simpl.
      replace (dict_get d' "Plans" (VList [])) with (VList (VRef <$> map root kids)).
      { simpl. exact E. }
      rewrite <- Hp. unfold dict_get.
      by rewrite (change_node_other _ _ _ "Plans" Hd').
    + apply (changes_only_trans _ [l] _ _ _ _ Hco C).
    + intros x Hx. simpl in Hx. apply elem_of_cons in Hx as [->|Hx].
      * exists d, d'. split; [done|]. split; [done|].
        rewrite (co_outside _ _ _ _ C) by done. apply lookup_insert_eq.
      * apply elem_of_locs_kids in Hx as Hx'. destruct Hx' as (i & c & Hc & Hxc).
        destruct (Q i c Hc x Hxc) as (e & e' & He & Hch & He').
        exists e, e'. split; [|done].
        rewrite lookup_insert_ne in He; [done|]. by intros ->.
Qed.

Lemma lays_local (h h' : heap) t :
  (∀ l, l ∈ locs t → h' !! l = h !! l) → lays h t = true → lays h' t = true.
Proof.
  induction t as [l kids IH] using ptree_ind'. intros Hsame.
  rewrite !lays_node. intros (d & Hd & Hp & Hk). exists d.
  split; [|split; [done|]].
  - rewrite Hsame; [done | apply list_elem_of_here].
  - rewrite Forall_forall in *. intros c Hc. apply IH; [done| |by apply Hk].
    intros x Hx. apply Hsame. by eapply locs_kid.
Qed.

Lemma ids_ok_local (h h' : heap) t :
  (∀ l, l ∈ locs t → h' !! l = h !! l) → ids_ok h t = true → ids_ok h' t = true.
Proof.
  intros Hsame. unfold ids_ok. rewrite !forallb_Forall, !Forall_forall.
  intros H l Hl. specialize (H l Hl). unfold id_ok, field in *.
  by rewrite Hsame.
Qed.

(** ** [modify_qep]: what the call returns and what it does to the store *)

Lemma modify_qep_tree fuel (h : heap) q d t mods :
  h !! q = Some d →
  d !! "Plan" = Some (VRef (root t)) →
  lays h t = true → NoDup (locs t) → ids_ok h t = true →
  (depth t ≤ fuel)%nat →
  ∃ q' h', modify_qep fuel q mods h = Ret (q', h')
    ∧ h !! q' = None
    ∧ h' !! q' = Some d
    ∧ (∀ l, l ∉ q' :: locs t → h' !! l = h !! l)
    ∧ lays h' t = true
    ∧ ∀ l, l ∈ locs t →
        ∃ e e', h !! l = Some e ∧ change_node mods e = Ret e'
                ∧ h' !! l = Some e'.
Proof.
  intros Hq Hplan Hl Hnd Hids Hdepth.
  set (q' := fresh (dom h)).
  assert (Hfresh : h !! q' = None).
  { apply not_elem_of_dom. apply is_fresh. }
  assert (Hout : ∀ l, l ∈ locs t → <[q' := d]> h !! l = h !! l).
  { intros l Hin. apply lookup_insert_ne. intros <-.
    destruct (lays_in_heap h t Hl q' Hin) as [? ?]. congruence. }
  destruct (apply_changes_tree mods t fuel (<[q' := d]> h))
    as (h' & E & C & P); try done.
  { by apply (lays_local h). }
  { by apply (ids_ok_local h). }
  exists q', h'. split; [|split; [done|split; [|split; [|split]]]].
  - unfold modify_qep. rewrite Hq, Hplan. fold q'. by rewrite E.
  - rewrite (co_outside _ _ _ _ C); [apply lookup_insert_eq|].
    intros Hin. destruct (lays_in_heap h t Hl q' Hin) as [? ?]. congruence.
  - intros l Hl'. rewrite not_elem_of_cons in Hl'. destruct Hl' as [Hne Hl'].
    rewrite (co_outside _ _ _ _ C) by done. by apply lookup_insert_ne.
  - apply (lays_changes_only "Node Type" (locs t) (<[q' := d]> h)); [done..|].
    by apply (lays_local h).
  - intros l Hin. destruct (P l Hin) as (e & e' & He & Hc & He').
    exists e, e'. by rewrite Hout in He.
Qed.

(** C2.  On a plan tree whose node identifiers are integers (or absent),
    with any modification spec, [modify_qep] returns a new QEP dictionary
    with the entries of the old one; the plan below it has the shape and
    the child order of the input plan, and every entry of every node other
    than ["Node Type"] has the value it had in the input. *)
Theorem modify_qep_preserves_plan (fuel : nat) (h : heap) (q : loc) (d : pydict)
    (t : ptree) (mods : modifications) :
  h !! q = Some d →
  d !! "Plan" = Some (VRef (root t)) →
  plan_tree h t = true →
  ids_ok h t = true →
  (depth t ≤ fuel)%nat →
  ∃ q' h', modify_qep fuel q mods h = Ret (q', h')
    ∧ h' !! q' = Some d
    ∧ lays h' t = true
    ∧ ∀ l key, l ∈ locs t → key ≠ "Node Type" →
        field h' l key = field h l key.
Proof.
  unfold plan_tree. rewrite andb_true_iff, bool_decide_eq_true.
  intros Hq Hplan [Hl Hnd] Hids Hdepth.
  destruct (modify_qep_tree fuel h q d t mods) as (q' & h' & E & _ & Hq' & _ & L & P);
    try done.
  exists q', h'. repeat split; try done.
  intros l key Hin Hkey. destruct (P l Hin) as (e & e' & He & Hc & He').
  unfold field. rewrite He, He'. simpl. by eapply change_node_other.
Qed.

Lemma modify_qep_preserves_plan_witness :
  ∃ q' h', modify_qep 3 10%positive example_mods example_stamped = Ret (q', h')
    ∧ h' !! q' = Some ({[ "Plan" := VRef 1%positive ]} : pydict)
    ∧ lays h' example_tree = true
    ∧ ∀ l key, l ∈ locs example_tree → key ≠ "Node Type" →
        field h' l key = field example_stamped l key.
Proof.
  apply (modify_qep_preserves_plan 3 example_stamped 10%positive
           {[ "Plan" := VRef 1%positive ]} example_tree example_mods).
  - vm_compute. reflexivity.
  - vm_compute. reflexivity.
  - vm_compute. reflexivity.
  - vm_compute. reflexivity.
  - vm_compute. lia.
Defined.

Lemma node_id_lookup (h : heap) l e k :
  h !! l = Some e → node_id h l = Some k → e !! "Node ID" = Some (VInt k).
Proof.
  intros He. unfold node_id, field. rewrite He. simpl.
  destruct (e !! "Node ID") as [[]|]; try done. by intros [= ->].
Qed.

(** C3.  For a node whose identifier is a key of the modification spec,
    when the entry holds both a ["Scan Type"] and a ["Node Type"] override,
    the node carries the ["Node Type"] value of the entry after
    [modify_qep]: it is applied after ["Scan Type"] and wins. *)
Theorem modify_qep_node_type_wins (fuel : nat) (h : heap) (q : loc) (d : pydict)
    (t : ptree) (mods : modifications) (l : loc) (k : Z) (m : modification)
    (scan_type node_type : string) :
  h !! q = Some d →
  d !! "Plan" = Some (VRef (root t)) →
  plan_tree h t = true →
  ids_ok h t = true →
  (depth t ≤ fuel)%nat →
  l ∈ locs t →
  node_id h l = Some k →
  mods_lookup k mods = Some m →
  m !! "Scan Type" = Some scan_type →
  m !! "Node Type" = Some node_type →
  ∃ q' h', modify_qep fuel q mods h = Ret (q', h')
    ∧ field h' l "Node Type" = Some (VStr node_type).
Proof.
  unfold plan_tree. rewrite andb_true_iff, bool_decide_eq_true.
  intros Hq Hplan [Hl Hnd] Hids Hdepth Hin Hk Hm Hs Hn.
  destruct (modify_qep_tree fuel h q d t mods) as (q' & h' & E & _ & _ & _ & _ & P);
    try done.
  exists q', h'. split; [done|].
  destruct (P l Hin) as (e & e' & He & Hc & He').
  rewrite (change_node_int _ _ k), Hm in Hc by (by eapply node_id_lookup).
  injection Hc as <-. unfold field. rewrite He'. simpl.
  by apply apply_modification_node_type.
Qed.

Lemma modify_qep_node_type_wins_witness :
  ∃ q' h', modify_qep 3 10%positive example_mods example_stamped = Ret (q', h')
    ∧ field h' 1%positive "Node Type" = Some (VStr "Merge Join").
Proof.
  apply (modify_qep_node_type_wins 3 example_stamped 10%positive
           {[ "Plan" := VRef 1%positive ]} example_tree example_mods 1%positive 1
           {[ "Scan Type" := "Seq Scan"; "Node Type" := "Merge Join" ]}
           "Seq Scan" "Merge Join").
  - vm_compute. reflexivity.
  - vm_compute. reflexivity.
  - vm_compute. reflexivity.
  - vm_compute. reflexivity.
  - vm_compute. lia.
  - apply list_elem_of_here.
  - vm_compute. reflexivity.
  - vm_compute. reflexivity.
  - vm_compute. reflexivity.
  - vm_compute. reflexivity.
Defined.

(** C9.  [modify_qep] copies the outermost dictionary only.  The returned
    QEP is a new object, but its ["Plan"] entry is the very reference the
    original holds, and the plan nodes below it are the objects of the
    input tree, at the same locations.  So the caller's original QEP,
    read after the call, shows the overridden ["Node Type"] of every node
    whose identifier is a key of the spec. *)
Theorem modify_qep_aliases_plan (fuel : nat) (h : heap) (q : loc) (d : pydict)
    (t : ptree) (mods : modifications) :
  h !! q = Some d →
  d !! "Plan" = Some (VRef (root t)) →
  plan_tree h t = true →
  ids_ok h t = true →
  q ∉ locs t →
  (depth t ≤ fuel)%nat →
  ∃ q' h', modify_qep fuel q mods h = Ret (q', h')
    ∧ q' ≠ q
    ∧ field h' q' "Plan" = Some (VRef (root t))
    ∧ field h' q "Plan" = Some (VRef (root t))
    ∧ lays h' t = true
    ∧ ∀ l k m, l ∈ locs t → node_id h l = Some k → mods_lookup k mods = Some m →
        (∀ n, m !! "Node Type" = Some n →
              field h' l "Node Type" = Some (VStr n))
        ∧ (∀ s, m !! "Node Type" = None → m !! "Scan Type" = Some s →
              field h' l "Node Type" = Some (VStr s)).
Proof.
  unfold plan_tree. rewrite andb_true_iff, bool_decide_eq_true.
  intros Hq Hplan [Hl Hnd] Hids Hroot Hdepth.
  destruct (modify_qep_tree fuel h q d t mods)
    as (q' & h' & E & Hfresh & Hq' & Hout & L & P); try done.
  assert (Hne : q' ≠ q) by (intros ->; congruence).
  exists q', h'. split; [done|]. split; [done|]. split; [|split; [|split; [done|]]].
  - unfold field. by rewrite Hq'.
  - unfold field. rewrite Hout, Hq; [done|].
    rewrite not_elem_of_cons. by split.
  - intros l k m Hin Hk Hm.
    destruct (P l Hin) as (e & e' & He & Hc & He').
    rewrite (change_node_int _ _ k), Hm in Hc by (by eapply node_id_lookup).
    injection Hc as <-. unfold field. rewrite He'. simpl. split.
    + intros n Hn. by apply apply_modification_node_type.
    + intros s Hn Hs. by apply apply_modification_scan_type.
Qed.

Lemma modify_qep_aliases_plan_witness :
  ∃ q' h', modify_qep 3 10%positive example_mods example_stamped = Ret (q', h')
    ∧ q' ≠ 10%positive
    ∧ field h' q' "Plan" = Some (VRef 1%positive)
    ∧ field h' 10%positive "Plan" = Some (VRef 1%positive)
    ∧ lays h' example_tree = true
    ∧ ∀ l k m, l ∈ locs example_tree → node_id example_stamped l = Some k →
        mods_lookup k example_mods = Some m →
        (∀ n, m !! "Node Type" = Some n →
              field h' l "Node Type" = Some (VStr n))
        ∧ (∀ s, m !! "Node Type" = None → m !! "Scan Type" = Some s →
              field h' l "Node Type" = Some (VStr s)).
Proof.
  apply (modify_qep_aliases_plan 3 example_stamped 10%positive
           {[ "Plan" := VRef 1%positive ]} example_tree example_mods).
  - vm_compute. reflexivity.
  - vm_compute. reflexivity.
  - vm_compute. reflexivity.
  - vm_compute. reflexivity.
  - vm_compute. intros H. by repeat (apply elem_of_cons in H as [H|H]; [discriminate|]);
      apply elem_of_nil in H.
  - vm_compute. lia.
Defined.

(** The store of the example after [modify_qep], read through the
    caller's original QEP at location 10: the root, a hash join before the
    call, is now a merge join, and the sequential scan an index scan; the
    other two nodes are as they were. *)
Example modify_qep_overwrites_original :
  match modify_qep 3 10%positive example_mods example_stamped with
  | Ret (q', h') =>
      field example_stamped 1%positive "Node Type" = Some (VStr "Hash Join")
      ∧ q' ≠ 10%positive
      ∧ field h' 10%positive "Plan" = Some (VRef 1%positive)
      ∧ field h' q' "Plan" = Some (VRef 1%positive)
      ∧ field h' 1%positive "Node Type" = Some (VStr "Merge Join")
      ∧ field h' 4%positive "Node Type" = Some (VStr "Index Scan")
      ∧ field h' 2%positive "Node Type" = Some (VStr "Index Scan")
      ∧ field h' 3%positive "Node Type" = Some (VStr "Hash")
  | _ => False
  end.
Proof. vm_compute. repeat split. discriminate. Qed.

(** ** [apply_planner_settings] *)

Example apply_planner_settings_index_scan :
  apply_planner_settings [(1, {[ "Scan Type" := "Index Scan" ]})]
  = "SET enable_seqscan = OFF; SET enable_indexscan = ON; SET enable_bitmapscan = OFF;".
Proof. reflexivity. Qed.

Example directives_index_scan :
  directives (apply_planner_settings [(1, {[ "Scan Type" := "Index Scan" ]})])
  = [("enable_seqscan", false); ("enable_indexscan", true); ("enable_bitmapscan", false)].
Proof. reflexivity. Qed.

(** An unknown node type appends an empty string to [settings]: the joined
    result gets a blank, and no statement. *)
Example apply_planner_settings_blank :
  apply_planner_settings [(1, {[ "Node Type" := "Sort" ]}); (10, {[ "Node Type" := "Hash Join" ]})]
  = " SET enable_mergejoin = OFF; SET enable_hashjoin = ON; SET enable_nestloop = OFF;".
Proof. reflexivity. Qed.

Lemma planner_settings_loop_spec mods settings :
  planner_settings_loop mods settings
  = settings ++ flat_map (λ p, entry_settings p.2) mods.
Proof.
  revert settings. induction mods as [|[k e] mods IH]; intros settings; simpl.
  - by rewrite app_nil_r.
  - by rewrite IH, app_assoc.
Qed.

Lemma cons_word_app w ws ws' : cons_word w (ws ++ ws') = cons_word w ws ++ ws'.
Proof. unfold cons_word. by destruct (String.eqb w ""). Qed.

Lemma split_words_blank a b :
  split_words (String.append a (String " " b))
  = ((split_words a).1, (split_words a).2 ++ words b).
Proof.
  induction a as [|c a IH]; simpl.
  - unfold words. by destruct (split_words b).
  - rewrite IH. destruct (split_words a) as [w ws]. simpl.
    destruct (Ascii.eqb c " "); [|done]. by rewrite cons_word_app.
Qed.

Lemma words_blank a b :
  words (String.append a (String " " b)) = words a ++ words b.
Proof.
  unfold words at 1 2. rewrite split_words_blank.
  destruct (split_words a) as [w ws]. simpl. apply cons_word_app.
Qed.

Lemma words_join l : words (join " " l) = flat_map words l.
Proof.
  induction l as [|s [|s' l] IH]; [done| |].
  - simpl. by rewrite app_nil_r.
  - change (join " " (s :: s' :: l))
      with (String.append s (String " " (join " " (s' :: l)))).
    by rewrite words_blank, IH.
Qed.

Lemma read_statements_app :
  ∀ ws ws', whole_statements ws = true →
    read_statements (ws ++ ws') = read_statements ws ++ read_statements ws'.
Proof.
  fix IH 1. intros [|kw [|name [|eq [|v rest]]]] ws' H; simpl in *; try done.
  apply andb_true_iff in H as [-> H]. simpl. by rewrite (IH rest ws' H).
Qed.

Lemma whole_statements_app :
  ∀ ws ws', whole_statements ws = true → whole_statements ws' = true →
    whole_statements (ws ++ ws') = true.
Proof.
  fix IH 1. intros [|kw [|name [|eq [|v rest]]]] ws' H H'; simpl in *; try done.
  apply andb_true_iff in H as [-> H]. simpl. by apply IH.
Qed.

Lemma whole_statements_flat_map (l : list string) :
  Forall (λ s, whole_statements (words s) = true) l →
  whole_statements (flat_map words l) = true.
Proof.
  induction 1 as [|s l Hs Hl IH]; [done|]. simpl. by apply whole_statements_app.
Qed.

(** What [get_operator_setting] can return. *)
Lemma get_operator_setting_cases operator_type :
  (operator_type = "Merge Join" ∧ get_operator_setting operator_type =
     "SET enable_mergejoin = ON; SET enable_hashjoin = OFF; SET enable_nestloop = OFF;")
  ∨ (operator_type = "Hash Join" ∧ get_operator_setting operator_type =
     "SET enable_mergejoin = OFF; SET enable_hashjoin = ON; SET enable_nestloop = OFF;")
  ∨ (operator_type = "Nested Loop" ∧ get_operator_setting operator_type =
     "SET enable_mergejoin = OFF; SET enable_hashjoin = OFF; SET enable_nestloop = ON;")
  ∨ (operator_type ≠ "Merge Join" ∧ operator_type ≠ "Hash Join"
     ∧ operator_type ≠ "Nested Loop" ∧ get_operator_setting operator_type = "").
Proof.
  destruct (decide (operator_type = "Merge Join")) as [->|H1]; [left; by split|].
  destruct (decide (operator_type = "Hash Join")) as [->|H2]; [right; left; by split|].
  destruct (decide (operator_type = "Nested Loop")) as [->|H3];
    [right; right; left; by split|].
  right; right; right. repeat split; try done.
  unfold get_operator_setting.
  rewrite !lookup_insert_ne by done. by rewrite lookup_singleton_ne.
Qed.

Lemma entry_settings_whole e :
  Forall (λ s, whole_statements (words s) = true) (entry_settings e).
Proof.
  unfold entry_settings. apply Forall_app. split.
  - destruct (e !! "Scan Type") as [s|]; [|done].
    destruct (String.eqb s "Index Scan"); [by repeat constructor|].
    destruct (String.eqb s "Seq Scan"); [by repeat constructor | done].
  - destruct (e !! "Node Type") as [n|]; [|done].
    repeat constructor.
    destruct (get_operator_setting_cases n)
      as [[_ ->]|[[_ ->]|[[_ ->]|(_ & _ & _ & ->)]]]; done.
Qed.

Lemma settings_whole (mods : modifications) :
  whole_statements (flat_map words (flat_map (λ p, entry_settings p.2) mods)) = true.
Proof.
  apply whole_statements_flat_map, Forall_forall. intros s Hs.
  apply elem_of_flat_map in Hs as ([k e] & _ & Hs).
  pose proof (entry_settings_whole e) as H. rewrite Forall_forall in H. by apply H.
Qed.

Lemma directives_settings mods :
  directives (apply_planner_settings mods)
  = read_statements (flat_map words (flat_map (λ p, entry_settings p.2) mods)).
Proof.
  unfold directives, apply_planner_settings.
  by rewrite words_join, planner_settings_loop_spec.
Qed.

(** The directives of a spec are those of its entries, in iteration order. *)
Lemma directives_app mods mods' :
  directives (apply_planner_settings (mods ++ mods'))
  = directives (apply_planner_settings mods)
    ++ directives (apply_planner_settings mods').
Proof.
  rewrite !directives_settings, !flat_map_app.
  apply read_statements_app, settings_whole.
Qed.

Lemma directives_entry k e :
  directives (apply_planner_settings [(k, e)])
  = read_statements (flat_map words (entry_settings e)).
Proof. rewrite directives_settings. simpl. by rewrite app_nil_r. Qed.

(** Case analysis on what an entry holds under ["Node Type"]. *)
Ltac node_type_cases e :=
  let n := fresh "n" in
  destruct (e !! "Node Type") as [n|];
  [ destruct (get_operator_setting_cases n)
      as [[_ ->]|[[_ ->]|[[_ ->]|(_ & _ & _ & ->)]]] | ].

Ltac scan_type_cases e :=
  let s := fresh "s" in
  destruct (e !! "Scan Type") as [s|];
  [ destruct (String.eqb s "Index Scan"); [|destruct (String.eqb s "Seq Scan")] | ].

(** C4.  Within any modification spec, the directives compiled for an entry
    stand between those of the entries before it and those after it.  An
    entry with scan type ["Index Scan"] yields, for the scan settings,
    exactly: sequential scan off, index scan on, bitmap scan off; with
    ["Seq Scan"]: sequential scan on, index scan off, bitmap scan off.  An
    entry whose node type is ["Merge Join"], ["Hash Join"] or
    ["Nested Loop"] yields, for the join settings, exactly: that strategy
    on and the other two off. *)
Theorem apply_planner_settings_entry (before after : modifications) (k : Z)
    (e : modification) :
  let ds := directives (apply_planner_settings [(k, e)]) in
  directives (apply_planner_settings (before ++ (k, e) :: after))
    = directives (apply_planner_settings before) ++ ds
      ++ directives (apply_planner_settings after)
  ∧ (e !! "Scan Type" = Some "Index Scan" →
       about scan_settings ds =
         [("enable_seqscan", false); ("enable_indexscan", true);
          ("enable_bitmapscan", false)])
  ∧ (e !! "Scan Type" = Some "Seq Scan" →
       about scan_settings ds =
         [("enable_seqscan", true); ("enable_indexscan", false);
          ("enable_bitmapscan", false)])
  ∧ (e !! "Node Type" = Some "Merge Join" →
       about join_settings ds =
         [("enable_mergejoin", true); ("enable_hashjoin", false);
          ("enable_nestloop", false)])
  ∧ (e !! "Node Type" = Some "Hash Join" →
       about join_settings ds =
         [("enable_mergejoin", false); ("enable_hashjoin", true);
          ("enable_nestloop", false)])
  ∧ (e !! "Node Type" = Some "Nested Loop" →
       about join_settings ds =
         [("enable_mergejoin", false); ("enable_hashjoin", false);
          ("enable_nestloop", true)]).
Proof.
  intros ds. subst ds. split.
  { change (before ++ (k, e) :: after) with (before ++ [(k, e)] ++ after).
    by rewrite !directives_app. }
  rewrite directives_entry. unfold entry_settings.
  repeat split; intros H; rewrite H; simpl.
  - node_type_cases e; reflexivity.
  - node_type_cases e; reflexivity.
  - scan_type_cases e; reflexivity.
  - scan_type_cases e; reflexivity.
  - scan_type_cases e; reflexivity.
Qed.

Lemma apply_planner_settings_entry_witness :
  let e : modification := {[ "Scan Type" := "Index Scan"; "Node Type" := "Hash Join" ]} in
  let ds := directives (apply_planner_settings [(1, e)]) in
  about scan_settings ds =
    [("enable_seqscan", false); ("enable_indexscan", true);
     ("enable_bitmapscan", false)]
  ∧ about join_settings ds =
    [("enable_mergejoin", false); ("enable_hashjoin", true);
     ("enable_nestloop", false)].
Proof.
  intros e ds.
  destruct (apply_planner_settings_entry [] [] 1 e) as (_ & Hidx & _ & _ & Hhash & _).
  split; [apply Hidx | apply Hhash]; reflexivity.
Defined.

(** The two examples of the specification, as strings. *)
Example apply_planner_settings_hash_join :
  apply_planner_settings [(1, {[ "Node Type" := "Hash Join" ]})]
  = "SET enable_mergejoin = OFF; SET enable_hashjoin = ON; SET enable_nestloop = OFF;".
Proof. reflexivity. Qed.

(** C5.  An entry whose scan type, if any, is neither ["Index Scan"] nor
    ["Seq Scan"], and whose node type, if any, is none of the three join
    operators, compiles to no directive: on its own it gives the empty
    string, and inside any spec the directives are those of the spec
    without it.  [apply_planner_settings] is a total function: on a spec
    whose overrides are strings no step of it can raise. *)
Theorem apply_planner_settings_unknown (before after : modifications) (k : Z)
    (e : modification) :
  (∀ s, e !! "Scan Type" = Some s → s ≠ "Index Scan" ∧ s ≠ "Seq Scan") →
  (∀ n, e !! "Node Type" = Some n →
        n ≠ "Merge Join" ∧ n ≠ "Hash Join" ∧ n ≠ "Nested Loop") →
  apply_planner_settings [(k, e)] = ""
  ∧ directives (apply_planner_settings [(k, e)]) = []
  ∧ directives (apply_planner_settings (before ++ (k, e) :: after))
    = directives (apply_planner_settings (before ++ after)).
Proof.
  intros Hs Hn.
  assert (E : apply_planner_settings [(k, e)] = "").
  { unfold apply_planner_settings. simpl. unfold entry_settings.
    destruct (e !! "Scan Type") as [s|] eqn:Es.
    - destruct (Hs s eq_refl) as [H1 H2].
      apply String.eqb_neq in H1, H2. rewrite H1, H2. simpl.
      destruct (e !! "Node Type") as [n|] eqn:En; [|done]. simpl.
      destruct (get_operator_setting_cases n)
        as [[-> _]|[[-> _]|[[-> _]|(_ & _ & _ & ->)]]]; [..|done];
        destruct (Hn _ eq_refl) as (? & ? & ?); done.
    - simpl. destruct (e !! "Node Type") as [n|] eqn:En; [|done]. simpl.
      destruct (get_operator_setting_cases n)
        as [[-> _]|[[-> _]|[[-> _]|(_ & _ & _ & ->)]]]; [..|done];
        destruct (Hn _ eq_refl) as (? & ? & ?); done. }
  split; [done|]. split; [by rewrite E|].
  change (before ++ (k, e) :: after) with (before ++ [(k, e)] ++ after).
  rewrite !directives_app, E. done.
Qed.

Lemma apply_planner_settings_unknown_witness :
  let e : modification := {[ "Scan Type" := "Bitmap Heap Scan"; "Node Type" := "Sort" ]} in
  let before : modifications := [(1, {[ "Node Type" := "Hash Join" ]})] in
  let after : modifications := [(11, {[ "Scan Type" := "Seq Scan" ]})] in
  apply_planner_settings [(10, e)] = ""
  ∧ directives (apply_planner_settings [(10, e)]) = []
  ∧ directives (apply_planner_settings (before ++ (10, e) :: after))
    = directives (apply_planner_settings (before ++ after)).
Proof.
  intros e before after.
  apply (apply_planner_settings_unknown before after 10 e).
  - intros s. vm_compute. intros [= <-]. split; discriminate.
  - intros n. vm_compute. intros [= <-]. repeat split; discriminate.
Defined.

(** ** [compare_costs] *)

Example compare_costs_100_85_5 :
  compare_costs no_float_of_str 3
    (cost_store (Some (VFloat f100)) (Some (VFloat f85_5))) 1%positive 2%positive
  = Ret {| original_cost := f100; modified_cost := f85_5;
           cost_difference := Dec true 1450 (-2) |}.
Proof. vm_compute. reflexivity. Qed.

(** *** Swapping the operands of a float subtraction *)

Lemma binary_round_aux_negb s m e l :
  binary_round_aux 53 1024 (negb s) m e l
  = SFopp (binary_round_aux 53 1024 s m e l).
Proof.
  unfold binary_round_aux.
  destruct (shr_fexp 53 1024 m e l) as [mrs e'].
  destruct (shr_fexp 53 1024 _ e' loc_Exact) as [mrs' e''].
  destruct (shr_m mrs'); simpl; try done.
  by destruct (e'' <=? 1024 - 53).
Qed.

Lemma binary_round_negb s m e :
  binary_round 53 1024 (negb s) m e = SFopp (binary_round 53 1024 s m e).
Proof.
  unfold binary_round. destruct (shl_align _ _ _) as [mz ez].
  apply binary_round_aux_negb.
Qed.

Lemma binary_normalize_opp m e :
  m ≠ 0 →
  binary_normalize 53 1024 (- m) e false
  = SFopp (binary_normalize 53 1024 m e false).
Proof.
  destruct m as [|p|p]; [done| |]; intros _; simpl.
  - apply (binary_round_negb false).
  - apply (binary_round_negb true).
Qed.

(** [y - x] is the opposite of [x - y]; when the two are equal numbers,
    both differences are the positive zero. *)
Lemma float_sub_swap x y :
  float_sub y x = SFopp (float_sub x y)
  ∨ (float_sub x y = S754_zero false ∧ float_sub y x = S754_zero false).
Proof.
  unfold float_sub.
  destruct x as [sx|sx| |sx mx ex], y as [sy|sy| |sy my ey]; simpl;
    try (by left); try (destruct sx, sy; simpl; by (left + right)).
  set (a := cond_Zopp sx (Z.pos (shl_align mx ex (Z.min ex ey)).1)).
  set (b := cond_Zopp sy (Z.pos (shl_align my ey (Z.min ex ey)).1)).
  rewrite (Z.min_comm ey ex). fold a b.
  destruct (decide (a - b = 0)) as [E|NE].
  - right. replace (b - a) with 0 by lia. by rewrite E.
  - left. replace (b - a) with (- (a - b)) by lia. by apply binary_normalize_opp.
Qed.

Lemma round2_opp f :
  match round2 (Decimal_of_float f), round2 (Decimal_of_float (SFopp f)) with
  | Ret d1, Ret d2 => dec_opposite d1 d2
  | Raise e1, Raise e2 => e1 = e2
  | _, _ => False
  end.
Proof.
  destruct f as [s|s| |s m e]; simpl; try done.
  - repeat split; by right.
  - destruct (0 <=? e); simpl.
    + destruct (_ <? _)%N; [|done]. simpl. repeat split; by right.
    + destruct (-2 <=? e); destruct (_ <? _)%N; simpl; try done;
        repeat split; by right.
Qed.

Lemma round2_same_zero :
  round2 (Decimal_of_float (S754_zero false)) = Ret (Dec false 0 (-2)).
Proof. reflexivity. Qed.

Section cost_properties.
Variable float_of_str : string → option spec_float.

Abbreviation read_total_cost := (read_total_cost float_of_str).
Abbreviation compare_costs := (compare_costs float_of_str).

Lemma printable_spec fuel (h : heap) q :
  printable fuel h q = true → json_dumps fuel h [] (VRef q) = Ret tt.
Proof.
  unfold printable. by destruct (json_dumps fuel h [] (VRef q)) as [[]| | |].
Qed.

(** [compare_costs] once both arguments are printed and both costs read. *)
Lemma compare_costs_read fuel (h : heap) q a o m :
  printable fuel h q = true →
  printable fuel h a = true →
  read_total_cost h q = Ret o →
  read_total_cost h a = Ret m →
  compare_costs fuel h q a =
    (d ← round2 (Decimal_of_float (float_sub m o)) ;
     if float_eq_int o (-1) || float_eq_int m (-1)
     then Raise cost_failure
     else Ret {| original_cost := o; modified_cost := m; cost_difference := d |}).
Proof.
  intros Pq%printable_spec Pa%printable_spec Ho Hm.
  unfold compare_costs. by rewrite Pq, Pa, Ho, Hm.
Qed.

(** Comparing in the other order: it fails when the first order fails, and
    returns the same two costs, exchanged, with the opposite difference. *)
Lemma compare_costs_swap fuel (h : heap) q a :
  match compare_costs fuel h q a, compare_costs fuel h a q with
  | Ret r1, Ret r2 =>
      original_cost r2 = modified_cost r1
      ∧ modified_cost r2 = original_cost r1
      ∧ dec_opposite (cost_difference r1) (cost_difference r2)
  | Ret _, _ | _, Ret _ => False
  | _, _ => True
  end.
Proof.
  destruct (json_dumps fuel h [] (VRef q)) as [[]| | |] eqn:Jq;
    destruct (json_dumps fuel h [] (VRef a)) as [[]| | |] eqn:Ja;
    try (unfold compare_costs; rewrite Jq, Ja; done).
  assert (Pq : printable fuel h q = true) by (unfold printable; by rewrite Jq).
  assert (Pa : printable fuel h a = true) by (unfold printable; by rewrite Ja).
  destruct (read_total_cost h q) as [o| | |] eqn:Ho;
    destruct (read_total_cost h a) as [m| | |] eqn:Hm;
    try (unfold compare_costs; rewrite Jq, Ja, Ho, Hm; done).
  rewrite (compare_costs_read fuel h q a o m Pq Pa Ho Hm).
  rewrite (compare_costs_read fuel h a q m o Pa Pq Hm Ho).
  rewrite (orb_comm (float_eq_int m (-1))).
  destruct (float_sub_swap o m) as [E|[E1 E2]].
  - rewrite E. pose proof (round2_opp (float_sub o m)) as H.
    destruct (round2 (Decimal_of_float (float_sub o m))) as [d1| | |];
      destruct (round2 (Decimal_of_float (SFopp (float_sub o m)))) as [d2| | |];
      simpl; try done.
    destruct (float_eq_int o (-1) || float_eq_int m (-1)); [done|]. simpl.
    repeat split; try done.
    destruct d1, d2; simpl in *; try done.
    + subst. by destruct sign.
    + destruct H as (-> & -> & [-> | ->]); repeat split; auto.
      right. by destruct sign.
  - rewrite E1, E2, round2_same_zero. simpl.
    destruct (float_eq_int o (-1) || float_eq_int m (-1)); [done|]. simpl.
    repeat split. by left.
Qed.

End cost_properties.

(** *** Rounding a decimal to two places *)

Lemma div_half_even_near (c D : N) :
  (0 < D)%N →
  2 * Z.abs (Z.of_N (div_half_even c D) * Z.of_N D - Z.of_N c) ≤ Z.of_N D.
Proof.
  intros HD. unfold div_half_even.
  pose proof (N.div_mod c D ltac:(lia)) as Hdm.
  pose proof (N.mod_lt c D ltac:(lia)) as Hlt.
  remember (c / D)%N as q. remember (c mod D)%N as r.
  destruct (N.compare_spec (2 * r) D) as [E|L|G].
  - destruct (N.even q); nia.
  - nia.
  - nia.
Qed.

Lemma div_half_even_le (c D : N) :
  (0 < D)%N → (div_half_even c D ≤ c / D + 1)%N.
Proof.
  intros HD. unfold div_half_even.
  destruct (_ ?= _)%N; [destruct (N.even _)| |]; lia.
Qed.

Lemma Qabs_signed s x y : Qabs (signed s x - signed s y) == Qabs (x - y).
Proof.
  destruct s; unfold signed; [|reflexivity].
  rewrite <- (Qabs_opp (x - y)). apply Qabs_wd. ring.
Qed.

Lemma Qabs_frac_le (a b : Z) (p q : positive) :
  200 * Z.abs (a * Z.pos q - b * Z.pos p) ≤ Z.pos p * Z.pos q →
  (Qabs ((a # p) - (b # q)) <= 1 # 200)%Q.
Proof.
  intros H. unfold Qle, Qabs, Qminus, Qplus, Qopp. simpl.
  rewrite Pos2Z.inj_mul. lia.
Qed.

Lemma pow_pos_id (b k : Z) : 0 < b → 0 ≤ k → Z.pos (Z.to_pos (b ^ k)) = b ^ k.
Proof. intros Hb Hk. apply Z2Pos.id. by apply Z.pow_pos_nonneg. Qed.

Lemma signed_wd s x y : x == y → signed s x == signed s y.
Proof. intros E. destruct s; unfold signed; by rewrite E. Qed.

Lemma of_N_pow (b : N) (k : Z) : 0 ≤ k → Z.of_N (b ^ Z.to_N k) = Z.of_N b ^ k.
Proof. intros Hk. by rewrite N2Z.inj_pow, Z2N.id. Qed.

(** [Decimal(f)] is exact. *)
Lemma Decimal_of_float_exact f : dec_to_Q (Decimal_of_float f) == float_to_Q f.
Proof.
  destruct f as [s|s| |s m e]; simpl; try reflexivity.
  - by destruct s.
  - destruct (0 <=? e) eqn:He; simpl.
    + apply signed_wd. apply Z.leb_le in He.
      rewrite N2Z.inj_mul, of_N_pow by done. simpl Z.of_N.
      rewrite Z.mul_1_r. reflexivity.
    + rewrite He. apply signed_wd. apply Z.leb_gt in He.
      unfold Qeq. simpl Qnum. simpl Qden.
      rewrite !pow_pos_id by lia.
      rewrite N2Z.inj_mul, of_N_pow by lia. simpl Z.of_N.
      replace 10 with (2 * 5) by done. rewrite Z.pow_mul_l. ring.
Qed.

(** [round2] returns the multiple of 0.01 nearest to its argument. *)
Lemma round2_nearest s c e d' :
  round2 (Dec s c e) = Ret d' →
  ∃ n, d' = Dec s n (-2)
       ∧ (Qabs (dec_to_Q d' - dec_to_Q (Dec s c e)) <= 1 # 200)%Q.
Proof.
  unfold round2. destruct (-2 <=? e) eqn:He.
  - destruct (_ <? _)%N; [|done]. intros [= <-]. eexists. split; [done|].
    apply Z.leb_le in He. unfold dec_to_Q. rewrite Qabs_signed.
    change (0 <=? -2) with false. cbv iota.
    change (Z.to_pos (10 ^ (- -2))) with 100%positive.
    rewrite N2Z.inj_mul, of_N_pow by lia. simpl Z.of_N.
    destruct (0 <=? e) eqn:He0.
    + apply Z.leb_le in He0. unfold inject_Z. apply Qabs_frac_le.
      rewrite Z.pow_add_r by lia. change (10 ^ 2) with 100. lia.
    + apply Z.leb_gt in He0. assert (e = -1 ∨ e = -2) as [-> | ->] by lia.
      * apply Qabs_frac_le. simpl. lia.
      * apply Qabs_frac_le. simpl. lia.
  - apply Z.leb_gt in He.
    set (D := (10 ^ Z.to_N (- 2 - e))%N).
    assert (HD : Z.of_N D = 10 ^ (- 2 - e)) by (subst D; by rewrite of_N_pow by lia).
    assert (HDpos : 0 < 10 ^ (- 2 - e)) by (apply Z.pow_pos_nonneg; lia).
    pose proof (div_half_even_near c D ltac:(lia)) as Hnear.
    destruct (_ <? _)%N; [|done]. intros [= <-]. eexists. split; [done|].
    unfold dec_to_Q. rewrite Qabs_signed.
    change (0 <=? -2) with false. cbv iota.
    change (Z.to_pos (10 ^ (- -2))) with 100%positive.
    replace (0 <=? e) with false by (symmetry; apply Z.leb_gt; lia).
    apply Qabs_frac_le. rewrite pow_pos_id by lia.
    replace (- e) with (2 + (- 2 - e)) by lia.
    rewrite Z.pow_add_r by lia. change (10 ^ 2) with 100.
    rewrite HD in Hnear. lia.
Qed.

Lemma div_half_even_tie (c D : N) :
  (0 < D)%N →
  2 * Z.abs (Z.of_N (div_half_even c D) * Z.of_N D - Z.of_N c) = Z.of_N D →
  N.even (div_half_even c D) = true.
Proof.
  intros HD. unfold div_half_even.
  pose proof (N.div_mod c D ltac:(lia)) as Hdm.
  pose proof (N.mod_lt c D ltac:(lia)) as Hlt.
  remember (c / D)%N as q. remember (c mod D)%N as r.
  destruct (N.compare_spec (2 * r) D) as [E|L|G].
  - destruct (N.even q) eqn:Eq; [done|]. intros _.
    by rewrite N.even_add, Eq.
  - nia.
  - nia.
Qed.

Lemma Qabs_frac_eq (a b : Z) (p q : positive) :
  Qabs ((a # p) - (b # q)) == 1 # 200 →
  200 * Z.abs (a * Z.pos q - b * Z.pos p) = Z.pos p * Z.pos q.
Proof.
  unfold Qeq, Qabs, Qminus, Qplus, Qopp. simpl.
  rewrite Pos2Z.inj_mul. lia.
Qed.

(** On a tie, [round2] picks the even neighbour. *)
Lemma round2_tie s c e n :
  round2 (Dec s c e) = Ret (Dec s n (-2)) →
  Qabs (dec_to_Q (Dec s n (-2)) - dec_to_Q (Dec s c e)) == 1 # 200 →
  N.even n = true.
Proof.
  unfold round2. destruct (-2 <=? e) eqn:He.
  - destruct (_ <? _)%N; [|done]. intros [= <-].
    apply Z.leb_le in He. unfold dec_to_Q. rewrite Qabs_signed.
    change (0 <=? -2) with false. cbv iota.
    change (Z.to_pos (10 ^ (- -2))) with 100%positive.
    rewrite N2Z.inj_mul, of_N_pow by lia. simpl Z.of_N.
    destruct (0 <=? e) eqn:He0.
    + apply Z.leb_le in He0. unfold inject_Z. intros H%Qabs_frac_eq.
      rewrite Z.pow_add_r in H by lia. change (10 ^ 2) with 100 in H. lia.
    + apply Z.leb_gt in He0. assert (e = -1 ∨ e = -2) as [-> | ->] by lia;
        intros H%Qabs_frac_eq; simpl in H; lia.
  - apply Z.leb_gt in He.
    set (D := (10 ^ Z.to_N (- 2 - e))%N).
    assert (HD : Z.of_N D = 10 ^ (- 2 - e)) by (subst D; by rewrite of_N_pow by lia).
    assert (HDpos : 0 < 10 ^ (- 2 - e)) by (apply Z.pow_pos_nonneg; lia).
    pose proof (div_half_even_tie c D ltac:(lia)) as Htie.
    destruct (_ <? _)%N; [|done]. intros [= <-].
    unfold dec_to_Q. rewrite Qabs_signed.
    change (0 <=? -2) with false. cbv iota.
    change (Z.to_pos (10 ^ (- -2))) with 100%positive.
    replace (0 <=? e) with false by (symmetry; apply Z.leb_gt; lia).
    intros H%Qabs_frac_eq. rewrite pow_pos_id in H by lia.
    replace (- e) with (2 + (- 2 - e)) in H by lia.
    rewrite Z.pow_add_r in H by lia. change (10 ^ 2) with 100 in H.
    apply Htie. rewrite HD. lia.
Qed.

(** A difference below [10^26] in magnitude can be rounded: the result has
    at most 28 digits. *)
Lemma round2_fits f :
  float_abs_le f (10 ^ 26 - 1) = true →
  ∃ d', round2 (Decimal_of_float f) = Ret d'.
Proof.
  destruct f as [s|s| |s m e]; simpl; try done; [eauto|].
  assert (P28 : (10 ^ 28)%N = 10000000000000000000000000000%N) by reflexivity.
  assert (P26 : 10 ^ 26 - 1 = 99999999999999999999999999) by reflexivity.
  rewrite P26.
  destruct (0 <=? e) eqn:He; simpl.
  - apply Z.leb_le in He. intros Hle%Z.leb_le.
    replace (_ <? _)%N with true; [eauto|]. symmetry. apply N.ltb_lt.
    rewrite P28. change (10 ^ Z.to_N 2)%N with 100%N.
    assert (Z.of_N (N.pos m * 2 ^ Z.to_N e) = Z.pos m * 2 ^ e) as E.
    { by rewrite N2Z.inj_mul, of_N_pow by lia. }
    lia.
  - apply Z.leb_gt in He. intros Hle%Z.leb_le.
    assert (HA : 0 < 2 ^ (- e)) by (apply Z.pow_pos_nonneg; lia).
    assert (HB : 0 < 5 ^ (- e)) by (apply Z.pow_pos_nonneg; lia).
    assert (Ec : Z.of_N (N.pos m * 5 ^ Z.to_N (- e)) = Z.pos m * 5 ^ (- e)).
    { by rewrite N2Z.inj_mul, of_N_pow by lia. }
    destruct (-2 <=? e) eqn:He2.
    + apply Z.leb_le in He2.
      replace (_ <? _)%N with true; [eauto|]. symmetry. apply N.ltb_lt.
      rewrite P28.
      assert (e = -1 ∨ e = -2) as [-> | ->] by lia; simpl in *; lia.
    + apply Z.leb_gt in He2.
      set (D := (10 ^ Z.to_N (- 2 - e))%N).
      assert (HD : Z.of_N D = 10 ^ (- 2 - e)) by (subst D; by rewrite of_N_pow by lia).
      assert (HDpos : 0 < 10 ^ (- 2 - e)) by (apply Z.pow_pos_nonneg; lia).
      replace (_ <? _)%N with true; [eauto|]. symmetry. apply N.ltb_lt.
      rewrite P28.
      pose proof (div_half_even_le (N.pos m * 5 ^ Z.to_N (- e)) D ltac:(lia)) as Hn.
      assert (Hq : (N.pos m * 5 ^ Z.to_N (- e) / D ≤ 9999999999999999999999999900)%N).
      { apply N.Div0.div_le_upper_bound.
        assert (E10 : 2 ^ (- e) * 5 ^ (- e) = 100 * 10 ^ (- 2 - e)).
        { rewrite <- Z.pow_mul_l. change (2 * 5) with 10.
          replace (- e) with (2 + (- 2 - e)) at 1 by lia.
          by rewrite Z.pow_add_r by lia. }
        nia. }
      lia.
Qed.

(** *** Reading the cost of a root *)

Section cost_claims.
Variable float_of_str : string → option spec_float.

Abbreviation py_float := (py_float float_of_str).
Abbreviation read_total_cost := (read_total_cost float_of_str).
Abbreviation compare_costs := (compare_costs float_of_str).

Lemma read_total_cost_present (h : heap) x v :
  root_total_cost h x = Some v → read_total_cost h x = py_float v.
Proof.
  unfold root_total_cost, field, read_total_cost, dict_get.
  destruct (h !! x) as [d|]; simpl; [|done].
  destruct (d !! "Plan") as [[| | | | | |p]|]; try done.
  destruct (h !! p) as [plan|]; simpl; [|done]. by intros ->.
Qed.

(** A root without the entry reads as [-1.0]. *)
Lemma read_total_cost_absent (h : heap) x :
  has_plan h x = true → root_total_cost h x = None →
  read_total_cost h x = Ret fm1.
Proof.
  unfold has_plan, root_total_cost, field, read_total_cost, dict_get.
  destruct (h !! x) as [d|]; simpl; [|done].
  destruct (d !! "Plan") as [[| | | | | |p]|]; try done.
  destruct (h !! p) as [plan|]; simpl; [by intros _ ->|done].
Qed.

Lemma py_float_outcome v :
  (∃ f, py_float v = Ret f)
  ∨ (∃ e, py_float v = Raise e ∧ class_of e ≠ CRuntimeError).
Proof.
  destruct v as [|b|z|f|s|vs|l]; simpl; eauto; try (right; by eexists).
  - destruct (float_of_Z z); eauto.
  - destruct (float_of_str s); eauto.
Qed.

Lemma read_total_cost_outcome (h : heap) x :
  has_plan h x = true →
  (∃ f, read_total_cost h x = Ret f)
  ∨ (∃ e, read_total_cost h x = Raise e ∧ class_of e ≠ CRuntimeError).
Proof.
  intros Hp. destruct (root_total_cost h x) as [v|] eqn:E.
  - rewrite (read_total_cost_present _ _ _ E). apply py_float_outcome.
  - left. rewrite (read_total_cost_absent _ _ Hp E). eauto.
Qed.

Lemma round2_outcome d :
  (∃ d', round2 d = Ret d') ∨ round2 d = Raise InvalidOperation.
Proof.
  destruct d as [|s|s c e]; simpl; eauto.
  destruct (_ <? _)%N; eauto.
Qed.

(** C6, as amended.  Let the two QEPs be printable (JSON documents, as
    the debug print on lines 135-136 needs), let [float] convert the
    ["Total Cost"] entries of the two roots to [o] and [m], neither equal
    to -1, and let the float difference [m - o] be below [10^26] in
    magnitude (at most [10^26 - 1]).  Then [compare_costs] returns the
    record of [o], [m] and a decimal with two places that is within half a
    hundredth of the float difference, the even one of the two candidates
    on a tie: that difference rounded to two decimal places.  In
    particular, for the costs 100.0 and 85.5 the record holds 100.0, 85.5
    and -14.50. *)
Theorem compare_costs_returns :
  (∀ fuel (h : heap) q a vq va o m,
     printable fuel h q = true →
     printable fuel h a = true →
     root_total_cost h q = Some vq → py_float vq = Ret o →
     root_total_cost h a = Some va → py_float va = Ret m →
     float_eq_int o (-1) = false →
     float_eq_int m (-1) = false →
     float_abs_le (float_sub m o) (10 ^ 26 - 1) = true →
     ∃ s n,
       compare_costs fuel h q a =
         Ret {| original_cost := o; modified_cost := m;
                cost_difference := Dec s n (-2) |}
       ∧ round2 (Decimal_of_float (float_sub m o)) = Ret (Dec s n (-2))
       ∧ (Qabs (dec_to_Q (Dec s n (-2)) - float_to_Q (float_sub m o))
          <= 1 # 200)%Q
       ∧ (Qabs (dec_to_Q (Dec s n (-2)) - float_to_Q (float_sub m o))
          == 1 # 200 → N.even n = true))
  ∧ (compare_costs 3 (cost_store (Some (VFloat f100)) (Some (VFloat f85_5)))
       1%positive 2%positive
     = Ret {| original_cost := f100; modified_cost := f85_5;
              cost_difference := Dec true 1450 (-2) |}
     ∧ dec_to_Q (Dec true 1450 (-2)) == - (145 # 10)).
Proof.
  split; [|split; [by vm_compute | reflexivity]].
  intros fuel h q a vq va o m Pq Pa Hq Ho Ha Hm No Nm Hfit.
  rewrite <- (read_total_cost_present _ _ _ Hq) in Ho.
  rewrite <- (read_total_cost_present _ _ _ Ha) in Hm.
  destruct (round2_fits _ Hfit) as [d Hd].
  assert (Hfin : ∃ s c e, Decimal_of_float (float_sub m o) = Dec s c e).
  { destruct (float_sub m o) as [s|s| |s mm e]; simpl in *; try done; eauto.
    destruct (0 <=? e); eauto. }
  destruct Hfin as (s & c & e & Edec).
  rewrite Edec in Hd. destruct (round2_nearest _ _ _ _ Hd) as (n & -> & Hnear).
  exists s, n. split; [|split; [|split]].
  - rewrite (compare_costs_read _ fuel h q a o m Pq Pa Ho Hm), Edec, Hd. simpl.
    by rewrite No, Nm.
  - by rewrite Edec.
  - rewrite <- Decimal_of_float_exact, Edec. exact Hnear.
  - rewrite <- Decimal_of_float_exact, Edec. by apply round2_tie.
Qed.

(** C7, as amended.  Let the two QEPs be printable.  When the root of
    either plan has no ["Total Cost"] entry, [compare_costs] returns no
    record: it raises, and never the [RuntimeError] that reports a refusal
    of the engine.  When moreover [float] converts the entry of the other
    root (if it has one) and the float difference is below [10^26] in
    magnitude (at most [10^26 - 1]), the exception is
    [ValueError("Failed to retrieve cost from QEP or AQP.")]. *)
Theorem compare_costs_missing_cost fuel (h : heap) q a :
  printable fuel h q = true →
  printable fuel h a = true →
  has_plan h q = true →
  has_plan h a = true →
  root_total_cost h q = None ∨ root_total_cost h a = None →
  (∃ e, compare_costs fuel h q a = Raise e
        ∧ ∀ msg, class_of e ≠ class_of (engine_refusal msg))
  ∧ (∀ o m,
       read_total_cost h q = Ret o →
       read_total_cost h a = Ret m →
       float_abs_le (float_sub m o) (10 ^ 26 - 1) = true →
       compare_costs fuel h q a = Raise cost_failure
       ∧ class_of cost_failure = CValueError).
Proof.
  intros Jq Ja Pq Pa Hmiss.
  assert (Hsent : ∀ o m, read_total_cost h q = Ret o → read_total_cost h a = Ret m →
            float_eq_int o (-1) || float_eq_int m (-1) = true).
  { intros o m Ho Hm. destruct Hmiss as [Hn|Hn].
    - rewrite (read_total_cost_absent _ _ Pq Hn) in Ho. injection Ho as <-. done.
    - rewrite (read_total_cost_absent _ _ Pa Hn) in Hm. injection Hm as <-.
      apply orb_true_r. }
  pose proof (printable_spec _ _ _ Jq) as Dq.
  pose proof (printable_spec _ _ _ Ja) as Da.
  split.
  - destruct (read_total_cost_outcome h q Pq) as [[o Ho]|(e & He & Hc)].
    2:{ exists e. split; [|done]. unfold compare_costs. by rewrite Dq, Da, He. }
    destruct (read_total_cost_outcome h a Pa) as [[m Hm]|(e & He & Hc)].
    2:{ exists e. split; [|done]. unfold compare_costs. by rewrite Dq, Da, Ho, He. }
    rewrite (compare_costs_read _ fuel h q a o m Jq Ja Ho Hm), (Hsent o m Ho Hm).
    destruct (round2_outcome (Decimal_of_float (float_sub m o))) as [[d ->]| ->];
      simpl; by eexists.
  - intros o m Ho Hm Hfit. split; [|done].
    destruct (round2_fits _ Hfit) as [d Hd].
    by rewrite (compare_costs_read _ fuel h q a o m Jq Ja Ho Hm), Hd, (Hsent o m Ho Hm).
Qed.

(** C8.  Comparing [(A, B)] and then [(B, A)]: the second comparison
    returns a record exactly when the first does, and then holds the
    opposite difference, digit for digit.  Both return whenever the QEPs
    are printable and the two costs are read, differ from -1, and differ
    from each other by less than [10^26] (at most [10^26 - 1]). *)
Theorem compare_costs_antisymmetric :
  (∀ fuel (h : heap) q a,
     match compare_costs fuel h q a, compare_costs fuel h a q with
     | Ret r1, Ret r2 =>
         original_cost r2 = modified_cost r1
         ∧ modified_cost r2 = original_cost r1
         ∧ dec_opposite (cost_difference r1) (cost_difference r2)
     | Ret _, _ | _, Ret _ => False
     | _, _ => True
     end)
  ∧ (∀ fuel (h : heap) q a o m,
       printable fuel h q = true →
       printable fuel h a = true →
       read_total_cost h q = Ret o →
       read_total_cost h a = Ret m →
       float_eq_int o (-1) = false →
       float_eq_int m (-1) = false →
       float_abs_le (float_sub m o) (10 ^ 26 - 1) = true →
       ∃ r1 r2, compare_costs fuel h q a = Ret r1
                ∧ compare_costs fuel h a q = Ret r2
                ∧ dec_opposite (cost_difference r1) (cost_difference r2)).
Proof.
  split; [apply compare_costs_swap|].
  intros fuel h q a o m Pq Pa Ho Hm No Nm Hfit.
  destruct (round2_fits _ Hfit) as [d Hd].
  pose proof (compare_costs_swap float_of_str fuel h q a) as Hswap.
  rewrite (compare_costs_read _ fuel h q a o m Pq Pa Ho Hm), Hd in Hswap |- *.
  simpl in *. rewrite No, Nm in Hswap |- *. simpl in *.
  destruct (compare_costs fuel h a q) as [r2| | |]; try done.
  destruct Hswap as (_ & _ & Hopp). by eexists _, r2.
Qed.

(** C10, as amended.  A root without ["Total Cost"] reads as the float
    -1.  When the QEPs are printable, both costs are read, [o] and [m], and
    the rounding of their difference returns, [compare_costs] raises
    [ValueError("Failed to retrieve cost from QEP or AQP.")] if and only if
    [o] or [m] equals -1; so it raises as well when a root does carry a
    cost that reads as -1. *)
Theorem compare_costs_sentinel :
  (∀ (h : heap) x,
     has_plan h x = true → root_total_cost h x = None →
     read_total_cost h x = Ret fm1 ∧ float_eq_int fm1 (-1) = true)
  ∧ (∀ fuel (h : heap) q a o m d,
       printable fuel h q = true →
       printable fuel h a = true →
       read_total_cost h q = Ret o →
       read_total_cost h a = Ret m →
       round2 (Decimal_of_float (float_sub m o)) = Ret d →
       (compare_costs fuel h q a = Raise cost_failure
        ↔ float_eq_int o (-1) = true ∨ float_eq_int m (-1) = true)
       ∧ ((is_Some (root_total_cost h q) ∧ float_eq_int o (-1) = true)
          ∨ (is_Some (root_total_cost h a) ∧ float_eq_int m (-1) = true) →
          compare_costs fuel h q a = Raise cost_failure)).
Proof.
  split.
  { intros h x Hp Hn. split; [by apply read_total_cost_absent | done]. }
  intros fuel h q a o m d Pq Pa Ho Hm Hd.
  rewrite (compare_costs_read _ fuel h q a o m Pq Pa Ho Hm), Hd. simpl.
  destruct (float_eq_int o (-1)), (float_eq_int m (-1)); simpl;
    (split; [split; [auto; done | intros [?|?]; done] | intros [[_ ?]|[_ ?]]; done]).
Qed.

End cost_claims.

(** *** Concrete comparisons *)

Lemma compare_costs_returns_witness :
  ∃ s n,
    compare_costs no_float_of_str 3
      (cost_store (Some (VFloat f100)) (Some (VFloat f85_5))) 1%positive 2%positive
    = Ret {| original_cost := f100; modified_cost := f85_5;
             cost_difference := Dec s n (-2) |}
    ∧ round2 (Decimal_of_float (float_sub f85_5 f100)) = Ret (Dec s n (-2))
    ∧ (Qabs (dec_to_Q (Dec s n (-2)) - float_to_Q (float_sub f85_5 f100))
       <= 1 # 200)%Q
    ∧ (Qabs (dec_to_Q (Dec s n (-2)) - float_to_Q (float_sub f85_5 f100))
       == 1 # 200 → N.even n = true).
Proof.
  apply (proj1 (compare_costs_returns no_float_of_str) 3%nat
           (cost_store (Some (VFloat f100)) (Some (VFloat f85_5)))
           1%positive 2%positive (VFloat f100) (VFloat f85_5) f100 f85_5);
    vm_compute; reflexivity.
Defined.

(** The claim C6 as it stands fails on two inputs.  A root that carries the
    cost -1.0 makes [compare_costs] raise its failure error, although both
    roots carry a cost.  And with the costs 100.0 and 1e30 the rounding of
    the difference raises [decimal.InvalidOperation]: the result would have
    33 digits, more than the 28 of the default decimal context. *)
Lemma compare_costs_returns_counterexample :
  (let h := cost_store (Some (VFloat fm1)) (Some (VFloat f85_5)) in
   root_total_cost h 1%positive = Some (VFloat fm1)
   ∧ root_total_cost h 2%positive = Some (VFloat f85_5)
   ∧ compare_costs no_float_of_str 3 h 1%positive 2%positive = Raise cost_failure)
  ∧ (let h := cost_store (Some (VFloat f100)) (Some (VFloat f1e30)) in
     root_total_cost h 1%positive = Some (VFloat f100)
     ∧ root_total_cost h 2%positive = Some (VFloat f1e30)
     ∧ compare_costs no_float_of_str 3 h 1%positive 2%positive
       = Raise InvalidOperation).
Proof. vm_compute. repeat split. Qed.

Lemma compare_costs_missing_cost_witness :
  let h := cost_store None (Some (VFloat f85_5)) in
  (∃ e, compare_costs no_float_of_str 3 h 1%positive 2%positive = Raise e
        ∧ ∀ msg, class_of e ≠ class_of (engine_refusal msg))
  ∧ compare_costs no_float_of_str 3 h 1%positive 2%positive = Raise cost_failure
  ∧ class_of cost_failure = CValueError.
Proof.
  intros h.
  destruct (compare_costs_missing_cost no_float_of_str 3 h 1%positive 2%positive)
    as [H1 H2]; [vm_compute; reflexivity .. | left; vm_compute; reflexivity |].
  split; [exact H1|].
  apply (H2 fm1 f85_5); vm_compute; reflexivity.
Defined.

(** The claim C7 as it stands fails on two inputs.  When a root carries a
    cost that is no number, here [None] (a JSON null), [float] raises
    [TypeError], which is not the failure error of [compare_costs] and not a
    [ValueError] at all.  And when one root has no cost and the other the
    cost 1e30, the rounding on line 140 raises [decimal.InvalidOperation]
    before the test on line 142 is reached. *)
Lemma compare_costs_missing_cost_counterexample :
  (let h := cost_store (Some (VFloat f100)) (Some VNone) in
   has_plan h 1%positive = true
   ∧ has_plan h 2%positive = true
   ∧ root_total_cost h 2%positive = Some VNone
   ∧ compare_costs no_float_of_str 3 h 1%positive 2%positive = Raise TypeError
   ∧ class_of TypeError ≠ class_of cost_failure)
  ∧ (let h := cost_store None (Some (VFloat f1e30)) in
     has_plan h 1%positive = true
     ∧ has_plan h 2%positive = true
     ∧ root_total_cost h 1%positive = None
     ∧ compare_costs no_float_of_str 3 h 1%positive 2%positive
       = Raise InvalidOperation
     ∧ class_of InvalidOperation ≠ class_of cost_failure).
Proof. vm_compute. repeat split; discriminate. Qed.

Lemma compare_costs_antisymmetric_witness :
  let h := cost_store (Some (VFloat f100)) (Some (VFloat f85_5)) in
  ∃ r1 r2,
    compare_costs no_float_of_str 3 h 1%positive 2%positive = Ret r1
    ∧ compare_costs no_float_of_str 3 h 2%positive 1%positive = Ret r2
    ∧ dec_opposite (cost_difference r1) (cost_difference r2).
Proof.
  intros h.
  apply (proj2 (compare_costs_antisymmetric no_float_of_str) 3%nat h
           1%positive 2%positive f100 f85_5); vm_compute; reflexivity.
Defined.

Example compare_costs_both_orders :
  let h := cost_store (Some (VFloat f100)) (Some (VFloat f85_5)) in
  compare_costs no_float_of_str 3 h 1%positive 2%positive
    = Ret {| original_cost := f100; modified_cost := f85_5;
             cost_difference := Dec true 1450 (-2) |}
  ∧ compare_costs no_float_of_str 3 h 2%positive 1%positive
    = Ret {| original_cost := f85_5; modified_cost := f100;
             cost_difference := Dec false 1450 (-2) |}.
Proof. vm_compute. split; reflexivity. Qed.

(** A QEP that contains itself cannot be printed. *)
Example compare_costs_circular :
  let h : heap := <[1%positive := {[ "Plan" := VRef 1%positive ]}]> ∅ in
  compare_costs no_float_of_str 3 h 1%positive 1%positive
  = Raise (ValueError "Circular reference detected").
Proof. vm_compute. reflexivity. Qed.

Lemma compare_costs_sentinel_witness :
  let h := cost_store (Some (VFloat fm1)) (Some (VFloat f85_5)) in
  is_Some (root_total_cost h 1%positive)
  ∧ compare_costs no_float_of_str 3 h 1%positive 2%positive = Raise cost_failure.
Proof.
  intros h. split; [by eexists|].
  apply (proj2 (proj2 (compare_costs_sentinel no_float_of_str) 3%nat h
                  1%positive 2%positive fm1 f85_5 (Dec false 8650 (-2))
                  ltac:(vm_compute; reflexivity) ltac:(vm_compute; reflexivity)
                  ltac:(vm_compute; reflexivity) ltac:(vm_compute; reflexivity)
                  ltac:(vm_compute; reflexivity))).
  left. split; [by eexists | reflexivity].
Defined.

(** The claim C10 as it stands fails on two inputs, in both of which the
    original root has no cost and so reads as -1.  With the other cost
    1e30, the rounding on line 140 raises [decimal.InvalidOperation] (the
    rounded difference would have 33 digits; the default decimal context
    allows 28) before the test on line 142.  With the other cost [None],
    [float] raises [TypeError] on line 139.  Neither is the failure error
    of [compare_costs]. *)
Lemma compare_costs_sentinel_counterexample :
  (let h := cost_store None (Some (VFloat f1e30)) in
   read_total_cost no_float_of_str h 1%positive = Ret fm1
   ∧ float_eq_int fm1 (-1) = true
   ∧ read_total_cost no_float_of_str h 2%positive = Ret f1e30
   ∧ compare_costs no_float_of_str 3 h 1%positive 2%positive
     = Raise InvalidOperation
   ∧ InvalidOperation ≠ cost_failure)
  ∧ (let h := cost_store None (Some VNone) in
     read_total_cost no_float_of_str h 1%positive = Ret fm1
     ∧ compare_costs no_float_of_str 3 h 1%positive 2%positive = Raise TypeError
     ∧ TypeError ≠ cost_failure).
Proof. vm_compute. repeat split; discriminate. Qed.
